(** * AWS sign-in through Gitpod's identity provider: a model of [aws/main.go]

    The model follows the variant of the program with the three sign-in
    methods and the verbose flow; [signinWithGitpod], [runningInGitpod] and
    [signinWithSSO] are the same in the shorter variant.

    The program is sequential glue over the process environment, two HTTP
    calls and a few child processes.  Everything it does not implement
    itself (the environment, [exec.LookPath], [net/url], [net/http],
    [encoding/json], the child processes, the clock, the iteration order of a
    Go map) is collected in one record, [World]; the program's own functions
    are written over it in a state monad whose state holds what the child
    processes act on and the log of what the program did. *)

From stdpp Require Import base strings list gmap fin_maps pretty.

Open Scope string_scope.
Open Scope list_scope.

(** ** Strings *)

(** The newline of the Go string literals. *)
Definition nl : string := String (Ascii.ascii_of_nat 10) EmptyString.

(** [strings.Contains]. *)
Definition Contains (s sub : string) : Prop :=
  ∃ pre post, s = pre +:+ sub +:+ post.

(** ** Errors *)

(** Go's [error] values as far as the program can tell them apart: an error
    handed over by a library ([errorString]; its text is all the program
    uses), and the [*fmt.wrapError] that [fmt.Errorf] builds for a format
    with one [%w] verb. *)
Inductive error : Type :=
| errorString (s : string)
| wrapError (msg : string) (err : error).

(** [err.Error()]. *)
Definition Error (e : error) : string :=
  match e with
  | errorString s => s
  | wrapError msg _ => msg
  end.

(** [errors.Unwrap]. *)
Definition Unwrap (e : error) : option error :=
  match e with
  | errorString _ => None
  | wrapError _ err => Some err
  end.

(** [fmt.Errorf(pre + "%w", err)]. *)
Definition Errorf_w (pre : string) (err : error) : error :=
  wrapError (pre +:+ Error err) err.

(** [fmt.Errorf(pre + "%s" + mid + "%w", s, err)]. *)
Definition Errorf_s_w (pre s mid : string) (err : error) : error :=
  wrapError (pre +:+ s +:+ mid +:+ Error err) err.

(** [fmt.Errorf("%w" + mid + "%s", err, s)]. *)
Definition Errorf_w_s (err : error) (mid s : string) : error :=
  wrapError (Error err +:+ mid +:+ s) err.

(** ** The outside world *)

(** [*url.URL]; the program reads its [Host] only. *)
Record URL : Type := { Host : string }.

(** [*http.Response]: the program never looks at the status code, it is kept
    here because the world reports one; the body is what the decoder reads. *)
Record Response : Type := { StatusCode : Z; Body : string }.

(** [*http.Request] as [http.NewRequest] and [Header.Set] build it. *)
Record Request : Type := {
  Method : string;
  Url : string;
  Header : gmap string (list string);
  Payload : string
}.

(** [struct { Token string `json:"token"` }]. *)
Record TokenJSON : Type := { Token : string }.

(** The [Credentials] member of the struct step 4 unmarshals into. *)
Record Credentials : Type := {
  AccessKeyId : string;
  SecretAccessKey : string;
  SessionToken : string
}.

(** What the child processes act on: the profile store of the AWS CLI,
    from (profile, key) to value. *)
Abbreviation Store := (gmap (string * string) string).

Record World : Type := {
  (** [os.Getenv]: the empty string for an unset variable. *)
  Getenv : string → string;
  (** [exec.LookPath]: a path and an error; the path is empty when nothing
      was found. *)
  LookPath : string → string * option error;
  (** [url.Parse]. *)
  url_Parse : string → URL + error;
  (** [client.Get]: a response, or a transport error.  A response with a
      status outside 2xx is a response. *)
  http_Get : string → Response + error;
  (** [client.Do]. *)
  http_Do : Request → Response + error;
  (** What [http.NewRequest] rejects (a method or a URL it cannot parse). *)
  NewRequest_err : string → string → option error;
  (** [json.NewDecoder(body).Decode(&v)] for a [v] of type [TokenJSON]: the
      value of [v] afterwards (a field absent in the body keeps its value)
      and the error. *)
  json_Decode : string → TokenJSON → TokenJSON * option error;
  (** [json.Marshal] of the step-2 request struct. *)
  json_Marshal : string → list string → string * option error;
  (** [json.Unmarshal(out, &result)] on a zero [result]. *)
  json_Unmarshal : string → Credentials * option error;
  (** [exec.Command(argv...).CombinedOutput()]: the combined output, the
      error (a non-zero exit, or a failure to start), and what the child
      did to the store. *)
  run_Command : list string → Store → (string * option error) * Store;
  (** [time.Now().Unix()]. *)
  Now_Unix : Z;
  (** The order in which [range] visits a map. *)
  range_order : gmap string string → list (string * string)
}.

(** What Go guarantees of [range] over a map: every entry once, in an order
    of its choosing. *)
Definition range_wf (w : World) : Prop :=
  ∀ m, range_order w m ≡ₚ map_to_list m.

(** ** State and effects *)

Inductive Event : Type :=
| EvStderr (s : string)          (** [fmt.Fprintf(os.Stderr, s)] *)
| EvGet (url : string)           (** [client.Get(url)] *)
| EvDo (req : Request)           (** [client.Do(req)] *)
| EvExec (argv : list string).   (** [exec.Command(argv...).CombinedOutput()] *)

Record State : Type := { store : Store; log : list Event }.

Definition record (e : Event) (σ : State) : State :=
  {| store := store σ; log := log σ ++ [e] |}.

Definition M (A : Type) : Type := State → A * State.

#[export] Instance M_ret : MRet M := λ A a σ, (a, σ).
#[export] Instance M_bind : MBind M :=
  λ A B f m σ, let '(a, σ') := m σ in f a σ'.

Definition Fprintf_Stderr (s : string) : M unit :=
  λ σ, (tt, record (EvStderr s) σ).

Definition client_Get (w : World) (url : string) : M (Response + error) :=
  λ σ, (http_Get w url, record (EvGet url) σ).

Definition client_Do (w : World) (req : Request) : M (Response + error) :=
  λ σ, (http_Do w req, record (EvDo req) σ).

Definition CombinedOutput (w : World) (argv : list string)
  : M (string * option error) :=
  λ σ, let '(r, s) := run_Command w argv (store σ) in
       (r, {| store := s; log := log σ ++ [EvExec argv] |}).

Definition http_NewRequest (w : World) (method url body : string)
  : Request + error :=
  match NewRequest_err w method url with
  | Some e => inr e
  | None => inl {| Method := method; Url := url; Header := ∅; Payload := body |}
  end.

(** [req.Header.Set(key, value)]. *)
Definition Header_Set (key value : string) (req : Request) : Request :=
  {| Method := Method req; Url := Url req;
     Header := <[key := [value]]> (Header req); Payload := Payload req |}.

(** ** The program *)

Definition SigninMethodFunc : Type := M (bool * option error).

Definition roleARN_hint : string :=
  "Running in a Gitpod workspace, but the IDP_AWS_ROLE_ARN environment variable is not set."
  +:+ nl +:+
  "Please setup OIDC trust (https://www.gitpod.io/docs/integrations/aws) and set the IDP_AWS_ROLE_ARN environment variable on your project"
  +:+ nl +:+ nl.

Definition giveup_message : string :=
  "don't know how to sign in - I've tried everythin 🤷" +:+ nl.

Definition runningInGitpod (w : World) : bool :=
  if bool_decide (Getenv w "GITPOD_WORKSPACE_URL" = "") then false
  else if bool_decide ((LookPath w "gp").1 = "") then false
  else true.

Definition signinWithSSO : SigninMethodFunc :=
  mret (false, None).

Definition signinWithGitpod (w : World) : SigninMethodFunc :=
  if negb (runningInGitpod w) then mret (false, None)
  else if bool_decide (Getenv w "IDP_AWS_ROLE_ARN" = "") then
    _ ← Fprintf_Stderr roleARN_hint;
    mret (false, None)
  else
    '(out, err) ← CombinedOutput w ["gp"; "idp"; "login"; "aws"];
    match err with
    | Some err =>
        mret (false, Some (Errorf_s_w "gp idp login failure: " out ": " err))
    | None => mret (true, None)
    end.

(** The argument vector of one step-4 invocation. *)
Definition configure_set_argv (k v : string) : list string :=
  ["aws"; "configure"; "set"; "--profile"; "default"; k; v].

(** [for k, v := range vars { ... }] of step 4, over the entries in the
    order [range] yields them, and the [return true, nil] behind it. *)
Fixpoint persist_vars (w : World) (kvs : list (string * string))
  : SigninMethodFunc :=
  match kvs with
  | [] => mret (true, None)
  | (k, v) :: rest =>
      '(out, err) ← CombinedOutput w (configure_set_argv k v);
      match err with
      | Some err => mret (false, Some (Errorf_w_s err ": " out))
      | None => persist_vars w rest
      end
  end.

(** The map literal of step 4. *)
Definition credential_vars (c : Credentials) : gmap string string :=
  <["aws_access_key_id" := AccessKeyId c]>
    (<["aws_secret_access_key" := SecretAccessKey c]>
       (<["aws_session_token" := SessionToken c]> ∅)).

(** The argument vector of step 3. *)
Definition assume_role_argv (roleARN sessionName token : string) : list string :=
  ["aws"; "sts"; "assume-role-with-web-identity"; "--role-arn"; roleARN;
   "--role-session-name"; sessionName; "--web-identity-token"; token].

Definition signinWithGitpodVerbose (w : World) : SigninMethodFunc :=
  if negb (runningInGitpod w) then mret (false, None) else
  let roleARN := Getenv w "IDP_AWS_ROLE_ARN" in
  if bool_decide (roleARN = "") then
    _ ← Fprintf_Stderr roleARN_hint;
    mret (false, None)
  else
  (* 1. Get token to talk to Gitpod *)
  let supervisorAddr := Getenv w "SUPERVISOR_ADDR" in
  let gitpodHostRaw := Getenv w "GITPOD_HOST" in
  let workspaceID := Getenv w "GITPOD_WORKSPACE_ID" in
  match url_Parse w gitpodHostRaw with
  | inr err => mret (false, Some (Errorf_w "invalid Gitpod host url: " err))
  | inl gitpodHost =>
  resp ← client_Get w ("http://" +:+ supervisorAddr
                        +:+ "/_supervisor/v1/token/gitpod/"
                        +:+ Host gitpodHost +:+ "/");
  match resp with
  | inr err => mret (false, Some (Errorf_w "cannot get gitpod token: " err))
  | inl resp =>
  let tkn := {| Token := "" |} in
  let '(tkn, err) := json_Decode w (Body resp) tkn in
  match err with
  | Some err => mret (false, Some (Errorf_w "cannot decode gitpod token: " err))
  | None =>
  (* 2. Produce identity token *)
  let '(idpReq, err) := json_Marshal w workspaceID ["sts.amazonaws.com"] in
  match err with
  | Some err =>
      mret (false, Some (Errorf_w "cannot marshal ID token request: " err))
  | None =>
  match http_NewRequest w "POST"
          ("https://api." +:+ Host gitpodHost
           +:+ "/gitpod.experimental.v1.IdentityProviderService/GetIDToken")
          idpReq with
  | inr err =>
      mret (false, Some (Errorf_w "cannot prepare ID token request: " err))
  | inl req =>
  let req := Header_Set "Authorization" ("Bearer " +:+ Token tkn) req in
  let req := Header_Set "Content-Type" "application/json" req in
  resp ← client_Do w req;
  match resp with
  | inr err =>
      mret (false, Some (Errorf_w "cannot make ID token request: " err))
  | inl resp =>
  let idtkn := {| Token := "" |} in
  let '(tkn, err) := json_Decode w (Body resp) tkn in   (* Decode(&tkn) *)
  match err with
  | Some err =>
      mret (false, Some (Errorf_w "cannot decode ID token response: " err))
  | None =>
  (* 3. Exchange ID token for AWS credentials *)
  '(out, err) ← CombinedOutput w
      (assume_role_argv roleARN (workspaceID +:+ "-" +:+ pretty (Now_Unix w))
         (Token idtkn));
  match err with
  | Some err => mret (false, Some (Errorf_w_s err ": " out))
  | None =>
  (* 4. Persist credentials as AWS profile *)
  let '(result, err) := json_Unmarshal w out in
  match err with
  | Some err => mret (false, Some err)
  | None =>
  let vars := credential_vars result in
  persist_vars w (range_order w vars)
  end end end end end end end end end.

(** [for _, signin := range signinMethods { ... }] of [main]: [true] when
    the loop was left through its [return]. *)
Fixpoint try_each (signinMethods : list SigninMethodFunc) : M bool :=
  match signinMethods with
  | [] => mret false
  | signin :: rest =>
      '(didSignIn, err) ← signin;
      if didSignIn : bool then mret true
      else
        _ ← match err with
            | Some err =>
                Fprintf_Stderr ("error while logging in: " +:+ Error err +:+ nl)
            | None => mret tt
            end;
        try_each rest
  end.

(** The body of [main] over a list of methods. *)
Definition dispatch (signinMethods : list SigninMethodFunc) : M unit :=
  returned ← try_each signinMethods;
  if returned : bool then mret tt else Fprintf_Stderr giveup_message.

Definition main (w : World) : M unit :=
  let signinMethods :=
    [signinWithGitpod w; signinWithGitpodVerbose w; signinWithSSO] in
  dispatch signinMethods.

(** ** Vocabulary of the statements *)

(** The URL of step 1, the URL and the request of step 2 and the argument
    vector of step 3, as [signinWithGitpodVerbose] composes them. *)
Definition metadata_url (w : World) (gitpodHost : URL) : string :=
  "http://" +:+ Getenv w "SUPERVISOR_ADDR" +:+ "/_supervisor/v1/token/gitpod/"
  +:+ Host gitpodHost +:+ "/".

Definition idp_url (gitpodHost : URL) : string :=
  "https://api." +:+ Host gitpodHost
  +:+ "/gitpod.experimental.v1.IdentityProviderService/GetIDToken".

Definition idp_request (gitpodHost : URL) (tkn : TokenJSON) (idpReq : string)
  : Request :=
  Header_Set "Content-Type" "application/json"
    (Header_Set "Authorization" ("Bearer " +:+ Token tkn)
       {| Method := "POST"; Url := idp_url gitpodHost; Header := ∅;
          Payload := idpReq |}).

Definition session_name (w : World) : string :=
  Getenv w "GITPOD_WORKSPACE_ID" +:+ "-" +:+ pretty (Now_Unix w).

(** The marker variable is set and the helper resolves. *)
Definition in_gitpod (w : World) : Prop :=
  Getenv w "GITPOD_WORKSPACE_URL" ≠ "" ∧ (LookPath w "gp").1 ≠ "".

(** The events a run added to the log. *)
Definition new_events (σ σ' : State) : list Event :=
  drop (length (log σ)) (log σ').

(** The [aws configure set] invocations among some events. *)
Definition is_configure_set (argv : list string) : bool :=
  bool_decide (take 3 argv = ["aws"; "configure"; "set"]).

Definition set_invocations (evs : list Event) : list (list string) :=
  omap (λ e, match e with
             | EvExec argv => if is_configure_set argv then Some argv else None
             | _ => None
             end) evs.

(** The [--web-identity-token] arguments of the step-3 invocations among
    some events. *)
Definition web_identity_tokens (evs : list Event) : list string :=
  omap (λ e, match e with
             | EvExec argv =>
                 if bool_decide (argv !! 7 = Some "--web-identity-token")
                 then argv !! 8 else None
             | _ => None
             end) evs.

(** The events of the step-4 invocations for some entries. *)
Definition set_events (kvs : list (string * string)) : list Event :=
  (λ kv, EvExec (configure_set_argv kv.1 kv.2)) <$> kvs.

(** The three entries of the step-4 map. *)
Definition credential_entries (c : Credentials) : list (string * string) :=
  [("aws_access_key_id", AccessKeyId c);
   ("aws_secret_access_key", SecretAccessKey c);
   ("aws_session_token", SessionToken c)].

(** What the dispatcher does with the error of a failed attempt. *)
Definition log_error (err : option error) (σ : State) : State :=
  match err with
  | Some e => record (EvStderr ("error while logging in: " +:+ Error e +:+ nl)) σ
  | None => σ
  end.

(** [tried ms σ σ']: the methods of [ms], each invoked once and in list
    order starting in [σ], all reported [didSignIn = false]; the error of
    each, if any, went to standard error before the next was invoked; [σ']
    is the state behind the last. *)
Inductive tried : list SigninMethodFunc → State → State → Prop :=
| tried_nil σ : tried [] σ σ
| tried_cons signin ms σ err σ1 σ2 :
    signin σ = ((false, err), σ1) →
    tried ms (log_error err σ1) σ2 →
    tried (signin :: ms) σ σ2.

(** [sets_ok w kvs s s']: the step-4 invocations for [kvs], run in turn from
    the store [s], all exited zero and left the store [s']. *)
Inductive sets_ok (w : World) : list (string * string) → Store → Store → Prop :=
| sets_ok_nil s : sets_ok w [] s s
| sets_ok_cons k v kvs s out s1 s2 :
    run_Command w (configure_set_argv k v) s = ((out, None), s1) →
    sets_ok w kvs s1 s2 →
    sets_ok w ((k, v) :: kvs) s s2.

(** Steps 1 to 3 of the verbose flow succeed from [σ]: the gates are open,
    the host parses, both HTTP calls answer with a body that decodes, the
    request can be built, and the credential exchange exits zero with output
    [out] that unmarshals to [c]. [σ3] is the state step 4 starts in. *)
Definition steps_1_to_3_succeed
    (w : World) (σ : State) (out : string) (c : Credentials) (σ3 : State)
  : Prop :=
  in_gitpod w ∧ Getenv w "IDP_AWS_ROLE_ARN" ≠ "" ∧
  ∃ gitpodHost resp1 tkn1 idpReq resp2 tkn2,
    url_Parse w (Getenv w "GITPOD_HOST") = inl gitpodHost ∧
    http_Get w (metadata_url w gitpodHost) = inl resp1 ∧
    json_Decode w (Body resp1) {| Token := "" |} = (tkn1, None) ∧
    json_Marshal w (Getenv w "GITPOD_WORKSPACE_ID") ["sts.amazonaws.com"]
      = (idpReq, None) ∧
    NewRequest_err w "POST" (idp_url gitpodHost) = None ∧
    http_Do w (idp_request gitpodHost tkn1 idpReq) = inl resp2 ∧
    json_Decode w (Body resp2) tkn1 = (tkn2, None) ∧
    run_Command w
      (assume_role_argv (Getenv w "IDP_AWS_ROLE_ARN") (session_name w) "")
      (store σ) = ((out, None), store σ3) ∧
    json_Unmarshal w out = (c, None) ∧
    log σ3 = log σ ++
      [EvGet (metadata_url w gitpodHost);
       EvDo (idp_request gitpodHost tkn1 idpReq);
       EvExec (assume_role_argv (Getenv w "IDP_AWS_ROLE_ARN")
                 (session_name w) "")].

(** What is known of [aws configure set --profile default k v]: when it
    exits zero it has written [k] in the profile, and when it does not it
    has left the other keys alone. *)
Definition configure_set_writes (w : World) : Prop :=
  ∀ k v s out err s',
    run_Command w (configure_set_argv k v) s = ((out, err), s') →
    match err with
    | None => s' = <[("default", k) := v]> s
    | Some _ => ∀ k', k' ≠ k → s' !! ("default", k') = s !! ("default", k')
    end.

(** ** Example worlds

    Worlds to run the program in.  Their [encoding/json] and [net/url] read
    the few shapes the examples use and reject everything else. *)
Module Example.

Definition dq : string := String (Ascii.ascii_of_nat 34) EmptyString.

Definition quoted (s : string) : string := dq +:+ s +:+ dq.

Fixpoint strip_prefix (p s : string) : option string :=
  match p, s with
  | EmptyString, _ => Some s
  | String a p', String b s' =>
      if Ascii.eqb a b then strip_prefix p' s' else None
  | String _ _, EmptyString => None
  end.

(** The text before the first double quote, and the text behind it. *)
Fixpoint up_to_quote (s : string) : option (string * string) :=
  match s with
  | EmptyString => None
  | String a s' =>
      if Ascii.eqb a (Ascii.ascii_of_nat 34) then Some (EmptyString, s')
      else '(t, rest) ← up_to_quote s'; Some (String a t, rest)
  end.

Definition syntax_error : error :=
  errorString "invalid character looking for beginning of value".

(** A body [{}] leaves the struct as it is and [{"token":"t"}] sets its
    field. *)
Definition Decode (body : string) (v : TokenJSON) : TokenJSON * option error :=
  if bool_decide (body = "{}") then (v, None)
  else
    match rest ← strip_prefix ("{" +:+ quoted "token" +:+ ":" +:+ dq) body;
          up_to_quote rest with
    | Some (t, "}") => ({| Token := t |}, None)
    | _ => (v, Some syntax_error)
    end.

Definition Marshal (workspaceID : string) (audience : list string)
  : string * option error :=
  ("{" +:+ quoted "workspace_id" +:+ ":" +:+ quoted workspaceID +:+ ","
   +:+ quoted "audience" +:+ ":["
   +:+ String.concat "," (quoted <$> audience) +:+ "]}", None).

Definition sts_output (c : Credentials) : string :=
  "{" +:+ quoted "Credentials" +:+ ":{"
  +:+ quoted "AccessKeyId" +:+ ":" +:+ quoted (AccessKeyId c) +:+ ","
  +:+ quoted "SecretAccessKey" +:+ ":" +:+ quoted (SecretAccessKey c) +:+ ","
  +:+ quoted "SessionToken" +:+ ":" +:+ quoted (SessionToken c) +:+ "}}".

Definition Unmarshal (out : string) : Credentials * option error :=
  let zero := {| AccessKeyId := ""; SecretAccessKey := ""; SessionToken := "" |} in
  if bool_decide (out = "{}") then (zero, None)
  else
    match
      r ← strip_prefix ("{" +:+ quoted "Credentials" +:+ ":{"
                        +:+ quoted "AccessKeyId" +:+ ":" +:+ dq) out;
      '(a, r) ← up_to_quote r;
      r ← strip_prefix ("," +:+ quoted "SecretAccessKey" +:+ ":" +:+ dq) r;
      '(b, r) ← up_to_quote r;
      r ← strip_prefix ("," +:+ quoted "SessionToken" +:+ ":" +:+ dq) r;
      '(c, r) ← up_to_quote r;
      Some (a, b, c, r)
    with
    | Some (a, b, c, "}}") =>
        ({| AccessKeyId := a; SecretAccessKey := b; SessionToken := c |}, None)
    | _ => (zero, Some syntax_error)
    end.

(** [url.Parse] on [https://host]; a string without a scheme parses too,
    as a path, and has no host. *)
Definition Parse (raw : string) : URL + error :=
  match strip_prefix "https://" raw with
  | Some host => inl {| Host := host |}
  | None => inl {| Host := "" |}
  end.

Definition issued : Credentials :=
  {| AccessKeyId := "ASIAEXAMPLE"; SecretAccessKey := "wJalrEXAMPLEKEY";
     SessionToken := "FwoGZXIvYXdzEXAMPLE" |}.

(** The child processes: [gp idp login aws] exits with [gp_err]; the
    credential exchange prints [issued]; [aws configure set] on a key in
    [failing] exits 255 and writes nothing, on another key it writes the
    key. *)
Definition run (gp_err : option error) (failing : list string)
    (argv : list string) (s : Store) : (string * option error) * Store :=
  if bool_decide (argv = ["gp"; "idp"; "login"; "aws"]) then
    (("gp: " +:+ from_option Error "logged in" gp_err, gp_err), s)
  else if bool_decide (take 3 argv = ["aws"; "sts"; "assume-role-with-web-identity"]) then
    ((sts_output issued, None), s)
  else if bool_decide (take 5 argv = ["aws"; "configure"; "set"; "--profile"; "default"]) then
    match drop 5 argv with
    | [k; v] =>
        if bool_decide (k ∈ failing)
        then (("cannot write the config file", Some (errorString "exit status 255")), s)
        else (("", None), <[("default", k) := v]> s)
    | _ => (("usage: aws configure set", Some (errorString "exit status 252")), s)
    end
  else (("", Some (errorString "executable file not found in $PATH")), s).

Definition env_of (vars : list (string * string)) (name : string) : string :=
  default "" ((list_to_map vars : gmap string string) !! name).

Definition world (vars : list (string * string)) (gp_path : string)
    (get post : Response + error) (gp_err : option error)
    (failing : list string)
    (order : list (string * string) → list (string * string)) : World :=
  {| Getenv := env_of vars;
     LookPath := λ file,
       if bool_decide (file = "gp" ∧ gp_path ≠ "") then (gp_path, None)
       else ("", Some (errorString "executable file not found in $PATH"));
     url_Parse := Parse;
     http_Get := λ _, get;
     http_Do := λ _, post;
     NewRequest_err := λ _ _, None;
     json_Decode := Decode;
     json_Marshal := Marshal;
     json_Unmarshal := Unmarshal;
     run_Command := run gp_err failing;
     Now_Unix := 1700000000;
     range_order := λ m, order (map_to_list m) |}.

Definition workspace_env : list (string * string) :=
  [("GITPOD_WORKSPACE_URL", "https://acme-app-1a2b3c.ws.gitpod.io");
   ("IDP_AWS_ROLE_ARN", "arn:aws:iam::123456789012:role/gitpod");
   ("SUPERVISOR_ADDR", "localhost:22999");
   ("GITPOD_HOST", "https://gitpod.io");
   ("GITPOD_WORKSPACE_ID", "acme-app-1a2b3c")].

Definition ok (status : Z) (body : string) : Response + error :=
  inl {| StatusCode := status; Body := body |}.

Definition token_body (t : string) : string :=
  "{" +:+ quoted "token" +:+ ":" +:+ quoted t +:+ "}".

Definition initial : State := {| store := ∅; log := [] |}.

(** Everything answers as it should. *)
Definition healthy : World :=
  world workspace_env "/usr/bin/gp"
    (ok 200 (token_body "gitpod-token")) (ok 200 (token_body "id-token"))
    None [] id.

(** Methods that leave their name on standard error, to see in the log
    which of them ran. *)
Definition named (name : string) (r : bool * option error)
  : SigninMethodFunc :=
  _ ← Fprintf_Stderr name; mret r.

Definition noisy_methods : list SigninMethodFunc :=
  [named "first" (false, None);
   named "second" (false, Some (errorString "no route to host"))].

(** [gp idp login aws] fails, the rest answers. *)
Definition gp_broken : World :=
  world workspace_env "/usr/bin/gp"
    (ok 200 (token_body "gitpod-token")) (ok 200 (token_body "id-token"))
    (Some (errorString "exit status 1")) [] id.

(** Not a Gitpod workspace. *)
Definition laptop : World :=
  world [("IDP_AWS_ROLE_ARN", "arn:aws:iam::123456789012:role/gitpod")] ""
    (inr (errorString "connection refused"))
    (inr (errorString "connection refused")) None [] id.



(** Writing aws_secret_access_key fails; the map is ranged over in the
    reverse of the order [map_to_list] has. *)
Definition secret_unwritable : World :=
  world workspace_env "/usr/bin/gp"
    (ok 200 (token_body "gitpod-token")) (ok 200 (token_body "id-token"))
    None ["aws_secret_access_key"] reverse.

Definition gitpod_io : URL := {| Host := "gitpod.io" |}.

(** The state in which step 4 starts when steps 1 to 3 ran in [w] from
    [initial] with the metadata token [t]. *)
Definition before_step4 (w : World) (t : string) : State :=
  {| store := ∅;
     log := [EvGet (metadata_url w gitpod_io);
             EvDo (idp_request gitpod_io {| Token := t |}
                     (Marshal "acme-app-1a2b3c" ["sts.amazonaws.com"]).1);
             EvExec (assume_role_argv (Getenv w "IDP_AWS_ROLE_ARN")
                       (session_name w) "")] |}.

End Example.

(** ** The shorter variant of [main]

    The first variant of the program tries the [gp] helper and the SSO
    placeholder, each with a message of its own and no newline behind the
    error. *)
Module Short.

Definition main (w : World) : M unit :=
  '(didSignIn, err) ← signinWithGitpod w;
  if didSignIn : bool then mret tt
  else
    _ ← match err with
        | Some err =>
            Fprintf_Stderr ("login using Gitpod IDP failed: " +:+ Error err)
        | None => mret tt
        end;
    '(didSignIn, err) ← signinWithSSO;
    if didSignIn : bool then mret tt
    else
      _ ← match err with
          | Some err =>
              Fprintf_Stderr ("login using SSO failed: " +:+ Error err)
          | None => mret tt
          end;
      Fprintf_Stderr giveup_message.

End Short.

(** ** Vocabulary of the statements on whole runs *)

(** The argument vector of the helper's login. *)
Definition gp_login_argv : list string := ["gp"; "idp"; "login"; "aws"].

(** The argument vector of step 3 in the world [w]. *)
Definition sts_argv (w : World) : list string :=
  assume_role_argv (Getenv w "IDP_AWS_ROLE_ARN") (session_name w) "".

(** The child processes, the HTTP calls and the writes to standard error
    among some events. *)
Definition child_processes (evs : list Event) : list (list string) :=
  omap (λ e, match e with EvExec argv => Some argv | _ => None end) evs.

Definition http_calls (evs : list Event) : list Event :=
  omap (λ e, match e with
             | EvGet _ | EvDo _ => Some e
             | _ => None
             end) evs.

Definition stderr_writes (evs : list Event) : list string :=
  omap (λ e, match e with EvStderr s => Some s | _ => None end) evs.

(** The line the dispatcher prints for the error of the helper's login. *)
Definition gp_failure_line (out : string) (e : error) : string :=
  "error while logging in: gp idp login failure: " +:+ out +:+ ": "
  +:+ Error e +:+ nl.

(** Step 1 of the verbose flow succeeds: the gates are open, the host
    parses, the GET answers and its body decodes to [tkn1]. *)
Definition step_1_succeeds (w : World) (gitpodHost : URL) (tkn1 : TokenJSON)
  : Prop :=
  in_gitpod w ∧ Getenv w "IDP_AWS_ROLE_ARN" ≠ "" ∧
  url_Parse w (Getenv w "GITPOD_HOST") = inl gitpodHost ∧
  ∃ resp1,
    http_Get w (metadata_url w gitpodHost) = inl resp1 ∧
    json_Decode w (Body resp1) {| Token := "" |} = (tkn1, None).

(** Steps 1 and 2 succeed: moreover the request is built from the body
    [idpReq], the POST answers and its body decodes. *)
Definition steps_1_to_2_succeed
    (w : World) (gitpodHost : URL) (tkn1 : TokenJSON) (idpReq : string)
  : Prop :=
  step_1_succeeds w gitpodHost tkn1 ∧
  json_Marshal w (Getenv w "GITPOD_WORKSPACE_ID") ["sts.amazonaws.com"]
    = (idpReq, None) ∧
  NewRequest_err w "POST" (idp_url gitpodHost) = None ∧
  ∃ resp2 tkn2,
    http_Do w (idp_request gitpodHost tkn1 idpReq) = inl resp2 ∧
    json_Decode w (Body resp2) tkn1 = (tkn2, None).

(** The events one run of the verbose flow can add: nothing, the hint, the
    GET, the GET and the POST, or both and the credential exchange followed
    by the invocations for the first entries the map is ranged over. *)
Inductive verbose_trace (w : World) : list Event → Prop :=
| verbose_trace_none : verbose_trace w []
| verbose_trace_hint : verbose_trace w [EvStderr roleARN_hint]
| verbose_trace_get u : verbose_trace w [EvGet u]
| verbose_trace_post u req : verbose_trace w [EvGet u; EvDo req]
| verbose_trace_exec u req c n :
    verbose_trace w
      ([EvGet u; EvDo req; EvExec (sts_argv w)]
       ++ set_events (take n (range_order w (credential_vars c)))).

(** More example worlds. *)
Module MoreExamples.

Definition with_url_Parse (parse : string → URL + error) (w : World) : World :=
  {| Getenv := Getenv w; LookPath := LookPath w; url_Parse := parse;
     http_Get := http_Get w; http_Do := http_Do w;
     NewRequest_err := NewRequest_err w; json_Decode := json_Decode w;
     json_Marshal := json_Marshal w; json_Unmarshal := json_Unmarshal w;
     run_Command := run_Command w; Now_Unix := Now_Unix w;
     range_order := range_order w |}.

Definition with_NewRequest_err (reject : string → string → option error)
    (w : World) : World :=
  {| Getenv := Getenv w; LookPath := LookPath w; url_Parse := url_Parse w;
     http_Get := http_Get w; http_Do := http_Do w;
     NewRequest_err := reject; json_Decode := json_Decode w;
     json_Marshal := json_Marshal w; json_Unmarshal := json_Unmarshal w;
     run_Command := run_Command w; Now_Unix := Now_Unix w;
     range_order := range_order w |}.

Definition with_run_Command
    (run : list string → Store → (string * option error) * Store)
    (w : World) : World :=
  {| Getenv := Getenv w; LookPath := LookPath w; url_Parse := url_Parse w;
     http_Get := http_Get w; http_Do := http_Do w;
     NewRequest_err := NewRequest_err w; json_Decode := json_Decode w;
     json_Marshal := json_Marshal w; json_Unmarshal := json_Unmarshal w;
     run_Command := run; Now_Unix := Now_Unix w;
     range_order := range_order w |}.

(** GITPOD_HOST does not parse. *)
Definition host_unparsable : World :=
  with_url_Parse (λ _, inr (errorString "missing protocol scheme"))
    Example.healthy.

(** The step-2 request cannot be built. *)
Definition request_rejected : World :=
  with_NewRequest_err
    (λ _ _, Some (errorString "invalid character in host name"))
    Example.healthy.

(** The identity provider cannot be reached. *)
Definition idp_unreachable : World :=
  Example.world Example.workspace_env "/usr/bin/gp"
    (Example.ok 200 (Example.token_body "gitpod-token"))
    (inr (errorString "dial tcp: connection refused")) None [] id.

(** The credential exchange answers with [reply]; the other child
    processes are those of [Example.run]. *)
Definition sts_replies (reply : string * option error) : World :=
  with_run_Command
    (λ argv s,
       if bool_decide (take 3 argv = ["aws"; "sts"; "assume-role-with-web-identity"])
       then (reply, s)
       else Example.run None [] argv s)
    Example.healthy.

Definition sts_denied : World :=
  sts_replies ("An error occurred (InvalidIdentityToken)",
               Some (errorString "exit status 254")).

Definition sts_garbled : World := sts_replies ("Run aws configure first", None).

(** The role ARN is missing in a workspace. *)
Definition no_role_arn : World :=
  Example.world
    [("GITPOD_WORKSPACE_URL", "https://acme-app-1a2b3c.ws.gitpod.io")]
    "/usr/bin/gp" (Example.ok 200 "{}") (Example.ok 200 "{}") None [] id.

(** A store that holds entries of its own before the run. *)
Definition lived_in : State :=
  {| store := {[ ("default", "region") := "eu-west-1";
                 ("staging", "aws_access_key_id") := "ASIASTAGING" ]};
     log := [EvStderr "earlier output"] |}.

End MoreExamples.


(** ** The process and its exit status

    To speak of the exit status the program is written once more as a tree
    of the calls it makes, in which [os.Exit] is a leaf: what a function can
    do to the process is then visible in its tree.  [run] answers the calls
    from a world with the primitives above, so a tree and the function of the
    same name are two readings of the same source text (the properties
    section shows that they agree). *)
Module Process.

(** How a Go function call ends for the process: the function returns, or
    the process is gone with a status. *)
Inductive Outcome (A : Type) : Type :=
| Returned (a : A)
| Exited (code : Z).

Arguments Returned {A} a.
Arguments Exited {A} code.

(** The calls the program makes into the standard library. *)
Inductive Call : Type → Type :=
| CGetenv (name : string) : Call string
| CLookPath (file : string) : Call (string * option error)
| CParse (raw : string) : Call (URL + error)
| CGet (url : string) : Call (Response + error)
| CNewRequest (method url body : string) : Call (Request + error)
| CDo (req : Request) : Call (Response + error)
| CDecode (body : string) (v : TokenJSON) : Call (TokenJSON * option error)
| CMarshal (workspaceID : string) (audience : list string)
    : Call (string * option error)
| CUnmarshal (out : string) : Call (Credentials * option error)
| CCombinedOutput (argv : list string) : Call (string * option error)
| CNow : Call Z
| CRange (m : gmap string string) : Call (list (string * string))
| CStderr (s : string) : Call unit.

(** A function body: it returns, or makes a call and goes on with the
    answer, or calls [os.Exit]. *)
Inductive Prog (A : Type) : Type :=
| Ret (a : A)
| Step {X : Type} (c : Call X) (k : X → Prog A)
| Exit (code : Z).

Arguments Ret {A} a.
Arguments Step {A X} c k.
Arguments Exit {A} code.

Fixpoint bind {A B : Type} (p : Prog A) (f : A → Prog B) : Prog B :=
  match p with
  | Ret a => f a
  | Step c k => Step c (λ x, bind (k x) f)
  | Exit code => Exit code
  end.

#[export] Instance Prog_ret : MRet Prog := λ A a, Ret a.
#[export] Instance Prog_bind : MBind Prog := λ A B f p, bind p f.

Definition call {X : Type} (c : Call X) : Prog X := Step c Ret.

(** [os.Exit(code)]. *)
Definition os_Exit {A : Type} (code : Z) : Prog A := Exit code.

Definition runningInGitpod : Prog bool :=
  url ← call (CGetenv "GITPOD_WORKSPACE_URL");
  if bool_decide (url = "") then mret false
  else
    pth ← call (CLookPath "gp");
    if bool_decide (pth.1 = "") then mret false else mret true.

Definition signinWithSSO : Prog (bool * option error) :=
  mret (false, None).

Definition signinWithGitpod : Prog (bool * option error) :=
  inGitpod ← runningInGitpod;
  if negb inGitpod then mret (false, None)
  else
    roleARN ← call (CGetenv "IDP_AWS_ROLE_ARN");
    if bool_decide (roleARN = "") then
      _ ← call (CStderr roleARN_hint);
      mret (false, None)
    else
      '(out, err) ← call (CCombinedOutput ["gp"; "idp"; "login"; "aws"]);
      match err with
      | Some err =>
          mret (false, Some (Errorf_s_w "gp idp login failure: " out ": " err))
      | None => mret (true, None)
      end.

Fixpoint persist_vars (kvs : list (string * string))
  : Prog (bool * option error) :=
  match kvs with
  | [] => mret (true, None)
  | (k, v) :: rest =>
      '(out, err) ← call (CCombinedOutput (configure_set_argv k v));
      match err with
      | Some err => mret (false, Some (Errorf_w_s err ": " out))
      | None => persist_vars rest
      end
  end.

Definition signinWithGitpodVerbose : Prog (bool * option error) :=
  inGitpod ← runningInGitpod;
  if negb inGitpod then mret (false, None) else
  roleARN ← call (CGetenv "IDP_AWS_ROLE_ARN");
  if bool_decide (roleARN = "") then
    _ ← call (CStderr roleARN_hint);
    mret (false, None)
  else
  (* 1. Get token to talk to Gitpod *)
  supervisorAddr ← call (CGetenv "SUPERVISOR_ADDR");
  gitpodHostRaw ← call (CGetenv "GITPOD_HOST");
  workspaceID ← call (CGetenv "GITPOD_WORKSPACE_ID");
  gitpodHost ← call (CParse gitpodHostRaw);
  match gitpodHost with
  | inr err => mret (false, Some (Errorf_w "invalid Gitpod host url: " err))
  | inl gitpodHost =>
  resp ← call (CGet ("http://" +:+ supervisorAddr
                     +:+ "/_supervisor/v1/token/gitpod/"
                     +:+ Host gitpodHost +:+ "/"));
  match resp with
  | inr err => mret (false, Some (Errorf_w "cannot get gitpod token: " err))
  | inl resp =>
  let tkn := {| Token := "" |} in
  '(tkn, err) ← call (CDecode (Body resp) tkn);
  match err with
  | Some err => mret (false, Some (Errorf_w "cannot decode gitpod token: " err))
  | None =>
  (* 2. Produce identity token *)
  '(idpReq, err) ← call (CMarshal workspaceID ["sts.amazonaws.com"]);
  match err with
  | Some err =>
      mret (false, Some (Errorf_w "cannot marshal ID token request: " err))
  | None =>
  req ← call (CNewRequest "POST"
                ("https://api." +:+ Host gitpodHost
                 +:+ "/gitpod.experimental.v1.IdentityProviderService/GetIDToken")
                idpReq);
  match req with
  | inr err =>
      mret (false, Some (Errorf_w "cannot prepare ID token request: " err))
  | inl req =>
  let req := Header_Set "Authorization" ("Bearer " +:+ Token tkn) req in
  let req := Header_Set "Content-Type" "application/json" req in
  resp ← call (CDo req);
  match resp with
  | inr err =>
      mret (false, Some (Errorf_w "cannot make ID token request: " err))
  | inl resp =>
  let idtkn := {| Token := "" |} in
  '(tkn, err) ← call (CDecode (Body resp) tkn);   (* Decode(&tkn) *)
  match err with
  | Some err =>
      mret (false, Some (Errorf_w "cannot decode ID token response: " err))
  | None =>
  (* 3. Exchange ID token for AWS credentials *)
  now ← call CNow;
  '(out, err) ← call (CCombinedOutput
      (assume_role_argv roleARN (workspaceID +:+ "-" +:+ pretty now)
         (Token idtkn)));
  match err with
  | Some err => mret (false, Some (Errorf_w_s err ": " out))
  | None =>
  (* 4. Persist credentials as AWS profile *)
  '(result, err) ← call (CUnmarshal out);
  match err with
  | Some err => mret (false, Some err)
  | None =>
  let vars := credential_vars result in
  kvs ← call (CRange vars);
  persist_vars kvs
  end end end end end end end end end.

Fixpoint try_each (signinMethods : list (Prog (bool * option error)))
  : Prog bool :=
  match signinMethods with
  | [] => mret false
  | signin :: rest =>
      '(didSignIn, err) ← signin;
      if didSignIn : bool then mret true
      else
        _ ← match err with
            | Some err =>
                call (CStderr ("error while logging in: " +:+ Error err +:+ nl))
            | None => mret tt
            end;
        try_each rest
  end.

Definition main : Prog unit :=
  let signinMethods :=
    [signinWithGitpod; signinWithGitpodVerbose; signinWithSSO] in
  returned ← try_each signinMethods;
  if returned : bool then mret tt else call (CStderr giveup_message).

(** The answer of a world to a call, with the primitives of the state
    monad: what is logged and what happens to the store is theirs. *)
Definition answer (w : World) {X : Type} (c : Call X) : M X :=
  match c with
  | CGetenv name => mret (Getenv w name)
  | CLookPath file => mret (LookPath w file)
  | CParse raw => mret (url_Parse w raw)
  | CGet url => client_Get w url
  | CNewRequest method url body => mret (http_NewRequest w method url body)
  | CDo req => client_Do w req
  | CDecode body v => mret (json_Decode w body v)
  | CMarshal workspaceID audience => mret (json_Marshal w workspaceID audience)
  | CUnmarshal out => mret (json_Unmarshal w out)
  | CCombinedOutput argv => CombinedOutput w argv
  | CNow => mret (Now_Unix w)
  | CRange m => mret (range_order w m)
  | CStderr s => Fprintf_Stderr s
  end.

Fixpoint run (w : World) {A : Type} (p : Prog A) (σ : State)
  : Outcome A * State :=
  match p with
  | Ret a => (Returned a, σ)
  | Step c k => let '(x, σ') := answer w c σ in run w (k x) σ'
  | Exit code => (Exited code, σ)
  end.

(** No [os.Exit] is reachable in a body, whatever the calls answer. *)
Inductive never_exits {A : Type} : Prog A → Prop :=
| never_exits_Ret a : never_exits (Ret a)
| never_exits_Step {X : Type} (c : Call X) k :
    (∀ x, never_exits (k x)) → never_exits (Step c k).

(** What the Go runtime makes of the end of [main]: status 0 when it
    returns, the status passed to [os.Exit] otherwise. *)
Definition exit_status {A : Type} (o : Outcome A) : Z :=
  match o with
  | Returned _ => 0
  | Exited code => code
  end.

(** What the program would be with the explicit failure status the design
    notes of the specification ask about: [os.Exit(1)] behind the final
    message. *)
Definition main_exiting : Prog unit :=
  _ ← main; os_Exit 1.

End Process.

(** The process: the run of [main] in a world, and the status the runtime
    ends it with. *)
Definition run_process (w : World) (σ : State) : Z * State :=
  let '(o, σ') := Process.run w Process.main σ in (Process.exit_status o, σ').

(** A tree and a function of the state monad agree in a world: run from any
    state, the tree returns what the function returns, in the same state. *)
Definition agrees {A : Type} (w : World) (p : Process.Prog A) (m : M A)
  : Prop :=
  ∀ σ, Process.run w p σ = let '(a, σ') := m σ in (Process.Returned a, σ').

(** * Properties *)

(** ** The monad and the primitives *)

Create HintDb go_unfold.

#[export] Hint Unfold mret mbind M_ret M_bind Fprintf_Stderr client_Get
  client_Do CombinedOutput : go_unfold.

(** Unfold the monad down to state passing. *)
Ltac go_step := autounfold with go_unfold; simpl.

(** Split on what the next [match] of the goal inspects. *)
Ltac branch :=
  match goal with
  | H : context [match ?x with _ => _ end] |- _ => destruct x eqn:?
  | |- context [match ?x with _ => _ end] => destruct x eqn:?
  end.

Lemma append_nil_r (s : string) : s +:+ "" = s.
Proof.
  induction s as [|a s IH]; [done |].
  change (String a (s +:+ "") = String a s). by f_equal.
Qed.

Lemma append_assoc (s1 s2 s3 : string) :
  (s1 +:+ s2) +:+ s3 = s1 +:+ s2 +:+ s3.
Proof.
  induction s1 as [|a s1 IH]; [done |].
  change (String a ((s1 +:+ s2) +:+ s3) = String a (s1 +:+ s2 +:+ s3)).
  by f_equal.
Qed.

Lemma Contains_intro (pre sub post : string) :
  Contains (pre +:+ sub +:+ post) sub.
Proof. by exists pre, post. Qed.

Lemma Contains_suffix (pre sub : string) : Contains (pre +:+ sub) sub.
Proof.
  exists pre, "". by rewrite append_nil_r.
Qed.

Lemma Contains_prefix (sub post : string) : Contains (sub +:+ post) sub.
Proof. by exists "", post. Qed.

(** ** The gates *)

Lemma runningInGitpod_true (w : World) :
  in_gitpod w → runningInGitpod w = true.
Proof.
  intros [Hurl Hgp]. unfold runningInGitpod.
  by rewrite !bool_decide_eq_false_2.
Qed.

Lemma runningInGitpod_false (w : World) :
  Getenv w "GITPOD_WORKSPACE_URL" = "" ∨ (LookPath w "gp").1 = "" →
  runningInGitpod w = false.
Proof.
  intros H. unfold runningInGitpod.
  case_bool_decide; [done |]. case_bool_decide; [done |]. by destruct H.
Qed.

(** C8: whatever the environment, the SSO attempt returns (false, nil) and
    leaves the store and the log as they were. *)
Theorem signinWithSSO_inert (σ : State) : signinWithSSO σ = ((false, None), σ).
Proof. reflexivity. Qed.

(** C5: when GITPOD_WORKSPACE_URL is empty or [gp] does not resolve, both
    Gitpod attempts return (false, nil) and leave the state untouched: no
    HTTP call, no child process, nothing on standard error. *)
Theorem outside_gitpod_not_attempted (w : World) (σ : State) :
  Getenv w "GITPOD_WORKSPACE_URL" = "" ∨ (LookPath w "gp").1 = "" →
  signinWithGitpod w σ = ((false, None), σ)
  ∧ signinWithGitpodVerbose w σ = ((false, None), σ).
Proof.
  intros H. apply runningInGitpod_false in H.
  unfold signinWithGitpod, signinWithGitpodVerbose. by rewrite H.
Qed.

Lemma outside_gitpod_not_attempted_witness :
  let w := Example.world [("IDP_AWS_ROLE_ARN", "arn:aws:iam::1:role/r")] ""
             (Example.ok 200 "{}") (Example.ok 200 "{}") None [] id in
  signinWithGitpod w Example.initial = ((false, None), Example.initial)
  ∧ signinWithGitpodVerbose w Example.initial = ((false, None), Example.initial).
Proof.
  intros w. apply (outside_gitpod_not_attempted w Example.initial).
  left. reflexivity.
Defined.

(** C6: with the marker and the helper present and IDP_AWS_ROLE_ARN empty,
    each Gitpod attempt returns (false, nil) and what it did is one write of
    the OIDC-setup hint to standard error. *)
Theorem missing_role_arn_hint_once (w : World) (σ : State) :
  Getenv w "GITPOD_WORKSPACE_URL" ≠ "" →
  (LookPath w "gp").1 ≠ "" →
  Getenv w "IDP_AWS_ROLE_ARN" = "" →
  signinWithGitpod w σ = ((false, None), record (EvStderr roleARN_hint) σ)
  ∧ signinWithGitpodVerbose w σ
    = ((false, None), record (EvStderr roleARN_hint) σ).
Proof.
  intros Hurl Hgp Harn.
  unfold signinWithGitpod, signinWithGitpodVerbose.
  rewrite (runningInGitpod_true w (conj Hurl Hgp)), Harn. by split.
Qed.

Lemma missing_role_arn_hint_once_witness :
  let w := Example.world
             [("GITPOD_WORKSPACE_URL", "https://acme-app-1a2b3c.ws.gitpod.io")]
             "/usr/bin/gp" (Example.ok 200 "{}") (Example.ok 200 "{}")
             None [] id in
  signinWithGitpod w Example.initial
    = ((false, None), {| store := ∅; log := [EvStderr roleARN_hint] |})
  ∧ signinWithGitpodVerbose w Example.initial
    = ((false, None), {| store := ∅; log := [EvStderr roleARN_hint] |}).
Proof.
  intros w. apply (missing_role_arn_hint_once w Example.initial).
  - vm_compute. discriminate.
  - vm_compute. discriminate.
  - reflexivity.
Defined.

(** C7: when [gp idp login aws] fails, [signinWithGitpod] returns
    didSignIn = false and one error: its message contains the helper's
    combined output and the message of the execution error, and unwrapping
    it gives the execution error. *)
Theorem gp_login_failure_wrapped
    (w : World) (σ : State) (out : string) (e : error) (s : Store) :
  Getenv w "GITPOD_WORKSPACE_URL" ≠ "" →
  (LookPath w "gp").1 ≠ "" →
  Getenv w "IDP_AWS_ROLE_ARN" ≠ "" →
  run_Command w ["gp"; "idp"; "login"; "aws"] (store σ) = ((out, Some e), s) →
  ∃ err,
    (signinWithGitpod w σ).1 = (false, Some err)
    ∧ Contains (Error err) out
    ∧ Contains (Error err) (Error e)
    ∧ Unwrap err = Some e.
Proof.
  intros Hurl Hgp Harn Hrun.
  exists (Errorf_s_w "gp idp login failure: " out ": " e).
  unfold signinWithGitpod.
  rewrite (runningInGitpod_true w (conj Hurl Hgp)).
  rewrite bool_decide_eq_false_2 by done.
  go_step. rewrite Hrun. simpl. repeat split.
  - apply Contains_intro.
  - rewrite <- !append_assoc. apply Contains_suffix.
Qed.

Lemma gp_login_failure_wrapped_witness :
  ∃ err,
    (signinWithGitpod Example.gp_broken Example.initial).1 = (false, Some err)
    ∧ Contains (Error err) "gp: exit status 1"
    ∧ Contains (Error err) "exit status 1"
    ∧ Unwrap err = Some (errorString "exit status 1").
Proof.
  apply (gp_login_failure_wrapped Example.gp_broken Example.initial
           "gp: exit status 1" (errorString "exit status 1") ∅).
  - vm_compute. discriminate.
  - vm_compute. discriminate.
  - vm_compute. discriminate.
  - reflexivity.
Defined.

(** ** The dispatcher *)

Lemma try_each_tried (ms rest : list SigninMethodFunc) (σ σ1 : State) :
  tried ms σ σ1 → try_each (ms ++ rest) σ = try_each rest σ1.
Proof.
  induction 1 as [|signin ms σ err σ1 σ2 Hsignin _ IH]; [done |].
  simpl. go_step. rewrite Hsignin.
  destruct err as [e|]; exact IH.
Qed.

Lemma dispatch_exhausted (ms : list SigninMethodFunc) (σ σ1 : State) :
  tried ms σ σ1 → dispatch ms σ = (tt, record (EvStderr giveup_message) σ1).
Proof.
  intros H. unfold dispatch. go_step.
  rewrite <- (app_nil_r ms), (try_each_tried ms [] σ σ1 H). done.
Qed.

(** C3: let the attempts before attempt k all report didSignIn = false when
    invoked once each and in list order, an error among them being written
    to standard error before the next attempt ([tried]).  If attempt k
    then reports didSignIn = true, the dispatcher stops in the state attempt
    k left, whatever the attempts behind it are: they are not invoked and
    nothing more is printed.  If the list ends there, the final failure
    message is printed. *)
Theorem dispatch_first_success
    (pre : list SigninMethodFunc) (σ σ1 : State) :
  tried pre σ σ1 →
  (∀ signin post err σ2,
     signin σ1 = ((true, err), σ2) →
     dispatch (pre ++ signin :: post) σ = (tt, σ2))
  ∧ dispatch pre σ = (tt, record (EvStderr giveup_message) σ1).
Proof.
  intros Hpre. split; [| by apply dispatch_exhausted].
  intros signin post err σ2 Hk. unfold dispatch. go_step.
  rewrite (try_each_tried pre _ σ σ1 Hpre). simpl. go_step. by rewrite Hk.
Qed.

Lemma dispatch_first_success_witness :
  dispatch (Example.noisy_methods
            ++ Example.named "third" (true, None)
            :: [Example.named "fourth" (true, None)]) Example.initial
  = (tt, {| store := ∅;
            log := [EvStderr "first"; EvStderr "second";
                    EvStderr ("error while logging in: no route to host" +:+ nl);
                    EvStderr "third"] |})
  ∧ dispatch Example.noisy_methods Example.initial
    = (tt, {| store := ∅;
              log := [EvStderr "first"; EvStderr "second";
                      EvStderr ("error while logging in: no route to host" +:+ nl);
                      EvStderr giveup_message] |}).
Proof.
  destruct (dispatch_first_success Example.noisy_methods Example.initial
              {| store := ∅;
                 log := [EvStderr "first"; EvStderr "second";
                         EvStderr ("error while logging in: no route to host"
                                   +:+ nl)] |}) as [Hk Hnone].
  - eapply tried_cons; [reflexivity |].
    eapply tried_cons; [reflexivity |]. apply tried_nil.
  - split; [| exact Hnone].
    apply (Hk (Example.named "third" (true, None)) _ None). reflexivity.
Defined.

(** ** The verbose flow *)

Lemma credential_vars_entries (c : Credentials) :
  map_to_list (credential_vars c) ≡ₚ credential_entries c.
Proof.
  unfold credential_vars, credential_entries.
  rewrite map_to_list_insert by by simplify_map_eq.
  rewrite map_to_list_insert by by simplify_map_eq.
  rewrite map_to_list_insert by by simplify_map_eq.
  by rewrite map_to_list_empty.
Qed.

Lemma range_order_entries (w : World) (c : Credentials) :
  range_wf w → range_order w (credential_vars c) ≡ₚ credential_entries c.
Proof. intros Hwf. rewrite (Hwf _). apply credential_vars_entries. Qed.

Lemma range_order_NoDup (w : World) (c : Credentials) :
  range_wf w → NoDup (range_order w (credential_vars c)).*1.
Proof.
  intros Hwf. rewrite (Hwf _). apply NoDup_fst_map_to_list.
Qed.

Lemma persist_vars_ok (w : World) (kvs : list (string * string))
    (σ : State) (s' : Store) :
  sets_ok w kvs (store σ) s' →
  persist_vars w kvs σ
  = ((true, None), {| store := s'; log := log σ ++ set_events kvs |}).
Proof.
  revert σ. induction kvs as [|[k v] kvs IH]; intros σ H;
    inversion H as [|? ? ? ? out s1 ? Hrun Hrest]; subst.
  - simpl. rewrite app_nil_r. by destruct σ.
  - simpl. go_step. rewrite Hrun.
    rewrite (IH {| store := s1; log := log σ ++ _ |} Hrest). simpl.
    by rewrite <- app_assoc.
Qed.

Lemma persist_vars_fail (w : World) (done todo : list (string * string))
    (k v out : string) (e : error) (σ : State) (s1 s2 : Store) :
  sets_ok w done (store σ) s1 →
  run_Command w (configure_set_argv k v) s1 = ((out, Some e), s2) →
  persist_vars w (done ++ (k, v) :: todo) σ
  = ((false, Some (Errorf_w_s e ": " out)),
     {| store := s2; log := log σ ++ set_events (done ++ [(k, v)]) |}).
Proof.
  revert σ. induction done as [|[k0 v0] done IH]; intros σ H Hk;
    inversion H as [|? ? ? ? out0 s0 ? Hrun Hrest]; subst.
  - simpl. go_step. by rewrite Hk.
  - simpl. go_step. rewrite Hrun.
    rewrite (IH {| store := s0; log := log σ ++ _ |} Hrest Hk). simpl.
    by rewrite <- app_assoc.
Qed.

Lemma verbose_reaches_step4 (w : World) (σ : State) (out : string)
    (c : Credentials) (σ3 : State) :
  steps_1_to_3_succeed w σ out c σ3 →
  signinWithGitpodVerbose w σ
  = persist_vars w (range_order w (credential_vars c)) σ3.
Proof.
  intros (Hin & Harn & host & resp1 & tkn1 & idpReq & resp2 & tkn2
          & Hparse & Hget & Hdec1 & Hmarshal & Hnew & Hdo & Hdec2
          & Hsts & Hunm & Hlog).
  unfold idp_request, metadata_url, idp_url, session_name in *.
  unfold signinWithGitpodVerbose.
  rewrite (runningInGitpod_true w Hin), bool_decide_eq_false_2 by done.
  simpl. rewrite Hparse. go_step. rewrite Hget, Hdec1, Hmarshal.
  unfold http_NewRequest. rewrite Hnew. rewrite Hdo, Hdec2. simpl.
  rewrite Hsts, Hunm. f_equal.
  destruct σ3 as [s3 l3]. simpl in *. subst l3.
  by rewrite <- !app_assoc.
Qed.

Lemma new_events_app (σ σ' : State) (evs : list Event) :
  log σ' = log σ ++ evs → new_events σ σ' = evs.
Proof. unfold new_events. intros ->. by rewrite drop_app_length. Qed.

Lemma set_invocations_app (evs1 evs2 : list Event) :
  set_invocations (evs1 ++ evs2)
  = set_invocations evs1 ++ set_invocations evs2.
Proof. apply omap_app. Qed.

Lemma set_invocations_set_events (kvs : list (string * string)) :
  set_invocations (set_events kvs)
  = (λ kv, configure_set_argv kv.1 kv.2) <$> kvs.
Proof.
  induction kvs as [|[k v] kvs IH]; [done |].
  change (configure_set_argv k v :: set_invocations (set_events kvs)
          = configure_set_argv k v
            :: ((λ kv, configure_set_argv kv.1 kv.2) <$> kvs)).
  by rewrite IH.
Qed.

(** Steps 1 to 3 invoke no [aws configure set]. *)
Lemma set_invocations_steps_1_to_3
    (u : string) (req : Request) (roleARN name token : string) :
  set_invocations [EvGet u; EvDo req;
                   EvExec (assume_role_argv roleARN name token)] = [].
Proof. reflexivity. Qed.

Lemma sets_ok_total (w : World) :
  (∀ k v s, (run_Command w (configure_set_argv k v) s).1.2 = None) →
  ∀ kvs s, ∃ s', sets_ok w kvs s s'.
Proof.
  intros Hok kvs. induction kvs as [|[k v] kvs IH]; intros s.
  - exists s. constructor.
  - specialize (Hok k v s).
    destruct (run_Command w (configure_set_argv k v) s) as [[out err] s1] eqn:E.
    simpl in Hok. subst err. destruct (IH s1) as [s' Hs'].
    exists s'. by econstructor.
Qed.

(** C4, as amended: when steps 1 to 3 succeed and every [aws configure set]
    exits zero, the attempt succeeds and its [aws configure set] invocations
    are three, one for each of aws_access_key_id, aws_secret_access_key and
    aws_session_token with the value from the exchange, in the order the map
    is ranged over, each on the profile "default". *)
Theorem three_profile_writes
    (w : World) (σ : State) (out : string) (c : Credentials) (σ3 : State) :
  range_wf w →
  steps_1_to_3_succeed w σ out c σ3 →
  (∀ k v s, (run_Command w (configure_set_argv k v) s).1.2 = None) →
  ∃ σ',
    signinWithGitpodVerbose w σ = ((true, None), σ')
    ∧ set_invocations (new_events σ σ')
      ≡ₚ [configure_set_argv "aws_access_key_id" (AccessKeyId c);
          configure_set_argv "aws_secret_access_key" (SecretAccessKey c);
          configure_set_argv "aws_session_token" (SessionToken c)]
    ∧ length (set_invocations (new_events σ σ')) = 3
    ∧ ∀ argv, argv ∈ set_invocations (new_events σ σ') →
        argv !! 3 = Some "--profile" ∧ argv !! 4 = Some "default".
Proof.
  intros Hwf Hsteps Hok.
  destruct (sets_ok_total w Hok (range_order w (credential_vars c)) (store σ3))
    as [s' Hsets].
  eexists. rewrite (verbose_reaches_step4 _ _ _ _ _ Hsteps).
  rewrite (persist_vars_ok _ _ _ _ Hsets). split; [reflexivity |].
  destruct Hsteps as (_ & _ & host & resp1 & tkn1 & idpReq & resp2 & tkn2
                      & _ & _ & _ & _ & _ & _ & _ & _ & _ & Hlog).
  erewrite new_events_app; last first.
  { simpl. rewrite Hlog, <- app_assoc. reflexivity. }
  rewrite set_invocations_app, set_invocations_steps_1_to_3,
    set_invocations_set_events. simpl.
  assert (Hperm :
    (λ kv : string * string, configure_set_argv kv.1 kv.2)
      <$> range_order w (credential_vars c)
    ≡ₚ (λ kv : string * string, configure_set_argv kv.1 kv.2)
      <$> credential_entries c).
  { by rewrite (range_order_entries w c Hwf). }
  split; [exact Hperm |]. split.
  - by rewrite Hperm.
  - intros argv [[k v] [-> _]]%list_elem_of_fmap. done.
Qed.

Lemma example_steps_1_to_3 (get : Response + error) (t : string)
    (failing : list string)
    (order : list (string * string) → list (string * string)) (status : Z)
    (body : string) :
  get = Example.ok status body →
  Example.Decode body {| Token := "" |} = ({| Token := t |}, None) →
  let w := Example.world Example.workspace_env "/usr/bin/gp" get
             (Example.ok 200 (Example.token_body "id-token")) None failing
             order in
  steps_1_to_3_succeed w Example.initial (Example.sts_output Example.issued)
    Example.issued (Example.before_step4 w t).
Proof.
  intros -> Hdec w. split; [split; vm_compute; discriminate |].
  split; [vm_compute; discriminate |].
  exists Example.gitpod_io, {| StatusCode := status; Body := body |},
    {| Token := t |},
    (Example.Marshal "acme-app-1a2b3c" ["sts.amazonaws.com"]).1,
    {| StatusCode := 200; Body := Example.token_body "id-token" |},
    {| Token := "id-token" |}.
  repeat split; try reflexivity. exact Hdec.
Qed.

Lemma three_profile_writes_witness :
  ∃ σ',
    signinWithGitpodVerbose Example.healthy Example.initial = ((true, None), σ')
    ∧ set_invocations (new_events Example.initial σ')
      ≡ₚ [configure_set_argv "aws_access_key_id" "ASIAEXAMPLE";
          configure_set_argv "aws_secret_access_key" "wJalrEXAMPLEKEY";
          configure_set_argv "aws_session_token" "FwoGZXIvYXdzEXAMPLE"]
    ∧ length (set_invocations (new_events Example.initial σ')) = 3
    ∧ ∀ argv, argv ∈ set_invocations (new_events Example.initial σ') →
        argv !! 3 = Some "--profile" ∧ argv !! 4 = Some "default".
Proof.
  apply (three_profile_writes Example.healthy Example.initial
           (Example.sts_output Example.issued) Example.issued
           (Example.before_step4 Example.healthy "gitpod-token")).
  - intros m. reflexivity.
  - by eapply example_steps_1_to_3.
  - intros k v s. reflexivity.
Defined.

(** C4 as stated fails: steps 1 to 3 succeed, the second
    [aws configure set] exits non-zero, and the run has two such
    invocations. *)
Lemma two_profile_writes_when_one_fails :
  steps_1_to_3_succeed Example.secret_unwritable Example.initial
    (Example.sts_output Example.issued) Example.issued
    (Example.before_step4 Example.secret_unwritable "gitpod-token")
  ∧ set_invocations
      (new_events Example.initial
         (signinWithGitpodVerbose Example.secret_unwritable Example.initial).2)
    = [configure_set_argv "aws_access_key_id" "ASIAEXAMPLE";
       configure_set_argv "aws_secret_access_key" "wJalrEXAMPLEKEY"].
Proof.
  split; [by eapply example_steps_1_to_3 | reflexivity].
Qed.

(** ** Step 4 and the profile store *)

Lemma sets_ok_other (w : World) (kvs : list (string * string))
    (s s' : Store) (k' : string) :
  configure_set_writes w → sets_ok w kvs s s' → k' ∉ kvs.*1 →
  s' !! ("default", k') = s !! ("default", k').
Proof.
  intros Hw. induction 1 as [|k v kvs s out s1 s2 Hrun _ IH]; [done |].
  intros [Hne Hnotin]%not_elem_of_cons. rewrite (IH Hnotin).
  rewrite (Hw _ _ _ _ _ _ Hrun). apply lookup_insert_ne.
  intros [= ->]. by apply Hne.
Qed.

Lemma sets_ok_written (w : World) (kvs : list (string * string))
    (s s' : Store) (k v : string) :
  configure_set_writes w → sets_ok w kvs s s' → NoDup kvs.*1 →
  (k, v) ∈ kvs → s' !! ("default", k) = Some v.
Proof.
  intros Hw. induction 1 as [|k0 v0 kvs s out s1 s2 Hrun Hrest IH]; intros Hnd Hin.
  - by apply elem_of_nil in Hin.
  - apply NoDup_cons in Hnd as [Hfresh Hnd].
    apply elem_of_cons in Hin as [[= -> ->] | Hin].
    + rewrite (sets_ok_other w kvs s1 s2 k0 Hw Hrest Hfresh).
      rewrite (Hw _ _ _ _ _ _ Hrun). apply lookup_insert_eq.
    + by apply IH.
Qed.

(** C10: let steps 1 to 3 succeed, let the map be ranged over in the order
    [done], then (k, v), then [todo], let the invocations for [done] exit
    zero and the one for (k, v) exit non-zero.  Then the attempt returns
    false and an error wrapping the exit error; its [aws configure set]
    invocations are those for [done] and for (k, v), at most three and none
    for [todo]; the store is as the failed invocation left it, and, with
    [aws configure set] writing its key on success and leaving the other keys
    alone on failure, every key of [done] still holds the value written. *)
Theorem profile_writes_not_rolled_back
    (w : World) (σ : State) (out : string) (c : Credentials) (σ3 : State)
    (done todo : list (string * string)) (k v outk : string) (e : error)
    (s1 s2 : Store) :
  range_wf w →
  configure_set_writes w →
  steps_1_to_3_succeed w σ out c σ3 →
  range_order w (credential_vars c) = done ++ (k, v) :: todo →
  sets_ok w done (store σ3) s1 →
  run_Command w (configure_set_argv k v) s1 = ((outk, Some e), s2) →
  ∃ err σ',
    signinWithGitpodVerbose w σ = ((false, Some err), σ')
    ∧ Unwrap err = Some e
    ∧ Contains (Error err) outk
    ∧ set_invocations (new_events σ σ')
      = (λ kv, configure_set_argv kv.1 kv.2) <$> (done ++ [(k, v)])
    ∧ (1 ≤ length (done ++ [(k, v)]) ≤ 3)%nat
    ∧ store σ' = s2
    ∧ ∀ k' v', (k', v') ∈ done → store σ' !! ("default", k') = Some v'.
Proof.
  intros Hwf Hw Hsteps Horder Hdone Hfail.
  exists (Errorf_w_s e ": " outk). eexists.
  rewrite (verbose_reaches_step4 _ _ _ _ _ Hsteps), Horder.
  rewrite (persist_vars_fail _ _ _ _ _ _ _ _ _ _ Hdone Hfail).
  split; [reflexivity |]. split; [reflexivity |].
  split; [simpl; rewrite <- append_assoc; apply Contains_suffix |].
  pose proof (range_order_NoDup w c Hwf) as Hnd.
  pose proof (range_order_entries w c Hwf) as Hperm.
  rewrite Horder in Hnd, Hperm.
  split; [| split; [| split; [reflexivity |]]].
  - destruct Hsteps as (_ & _ & host & resp1 & tkn1 & idpReq & resp2 & tkn2
                        & _ & _ & _ & _ & _ & _ & _ & _ & _ & Hlog).
    erewrite new_events_app; last first.
    { simpl. rewrite Hlog, <- app_assoc. reflexivity. }
    by rewrite set_invocations_app, set_invocations_steps_1_to_3,
      set_invocations_set_events.
  - apply Permutation_length in Hperm.
    rewrite length_app in *. simpl in *. lia.
  - intros k' v' Hin. simpl.
    rewrite fmap_app in Hnd. apply NoDup_app in Hnd as (Hnd1 & Hdisj & _).
    assert (k' ≠ k) as Hne.
    { intros ->. apply (Hdisj k).
      - apply list_elem_of_fmap. by exists (k, v').
      - simpl. left. }
    rewrite (Hw _ _ _ _ _ _ Hfail k' Hne).
    by apply (sets_ok_written w done (store σ3) s1 k' v').
Qed.

Lemma example_run_writes (vars : list (string * string)) (gp_path : string)
    (get post : Response + error) (gp_err : option error)
    (failing : list string)
    (order : list (string * string) → list (string * string)) :
  configure_set_writes
    (Example.world vars gp_path get post gp_err failing order).
Proof.
  intros k v s out err s'. simpl. unfold Example.run, configure_set_argv.
  rewrite bool_decide_eq_false_2 by discriminate.
  rewrite bool_decide_eq_false_2 by discriminate.
  rewrite bool_decide_eq_true_2 by reflexivity. simpl.
  case_bool_decide; intros [= <- <- <-]; done.
Qed.

Lemma profile_writes_not_rolled_back_witness :
  ∃ err σ',
    signinWithGitpodVerbose Example.secret_unwritable Example.initial
    = ((false, Some err), σ')
    ∧ Unwrap err = Some (errorString "exit status 255")
    ∧ Contains (Error err) "cannot write the config file"
    ∧ set_invocations (new_events Example.initial σ')
      = (λ kv, configure_set_argv kv.1 kv.2)
        <$> ([("aws_access_key_id", "ASIAEXAMPLE")]
             ++ [("aws_secret_access_key", "wJalrEXAMPLEKEY")])
    ∧ (1 ≤ length ([("aws_access_key_id", "ASIAEXAMPLE")]
                   ++ [("aws_secret_access_key", "wJalrEXAMPLEKEY")]) ≤ 3)%nat
    ∧ store σ' = {[ ("default", "aws_access_key_id") := "ASIAEXAMPLE" ]}
    ∧ ∀ k' v', (k', v') ∈ [("aws_access_key_id", "ASIAEXAMPLE")] →
        store σ' !! ("default", k') = Some v'.
Proof.
  apply (profile_writes_not_rolled_back Example.secret_unwritable Example.initial
           (Example.sts_output Example.issued) Example.issued
           (Example.before_step4 Example.secret_unwritable "gitpod-token")
           [("aws_access_key_id", "ASIAEXAMPLE")]
           [("aws_session_token", "FwoGZXIvYXdzEXAMPLE")]
           "aws_secret_access_key" "wJalrEXAMPLEKEY"
           "cannot write the config file" (errorString "exit status 255")
           {[ ("default", "aws_access_key_id") := "ASIAEXAMPLE" ]}).
  - intros m. apply reverse_Permutation.
  - apply example_run_writes.
  - by eapply example_steps_1_to_3.
  - reflexivity.
  - eapply sets_ok_cons; [reflexivity | apply sets_ok_nil].
  - reflexivity.
Defined.

(** ** Step 1: the metadata token *)




(** ** Step 3: the web-identity token *)

Lemma web_identity_tokens_set_events (kvs : list (string * string)) :
  web_identity_tokens (set_events kvs) = [].
Proof. induction kvs as [|[k v] kvs IH]; [done | exact IH]. Qed.

Lemma web_identity_tokens_app (evs1 evs2 : list Event) :
  web_identity_tokens (evs1 ++ evs2)
  = web_identity_tokens evs1 ++ web_identity_tokens evs2.
Proof. apply omap_app. Qed.

Lemma persist_vars_log (w : World) (kvs : list (string * string)) (σ : State) :
  ∃ n, log (persist_vars w kvs σ).2 = log σ ++ set_events (take n kvs).
Proof.
  revert σ. induction kvs as [|[k v] kvs IH]; intros σ.
  - exists 0. simpl. by rewrite app_nil_r.
  - simpl. go_step.
    destruct (run_Command w (configure_set_argv k v) (store σ))
      as [[out [e|]] s].
    + exists 1. done.
    + destruct (IH {| store := s;
                      log := log σ ++ [EvExec (configure_set_argv k v)] |})
        as [n Hn].
      exists (S n). rewrite Hn. simpl. by rewrite <- app_assoc.
Qed.

(** Whatever the world answers, every credential exchange the verbose flow
    starts gets the empty string as its web-identity token. *)
Lemma web_identity_token_always_empty (w : World) (σ : State) (t : string) :
  t ∈ web_identity_tokens (new_events σ (signinWithGitpodVerbose w σ).2) →
  t = "".
Proof.
  assert (∃ evs, log (signinWithGitpodVerbose w σ).2 = log σ ++ evs
                 ∧ ∀ t, t ∈ web_identity_tokens evs → t = "") as (evs & Hlog & Hevs).
  { unfold signinWithGitpodVerbose. go_step.
    repeat (branch;
            try (exists []; rewrite app_nil_r; split;
                 [reflexivity | by intros ? ?%elem_of_nil]));
      simplify_eq/=.
    all: try (eexists; split; [rewrite <- ?app_assoc; reflexivity |];
              simpl; intros ?; rewrite ?elem_of_cons, ?elem_of_nil;
              tauto).
    match goal with
    | |- context [persist_vars ?w ?kvs ?σ3] =>
        destruct (persist_vars_log w kvs σ3) as [n Hn]; rewrite Hn;
        match σ3 with
        | {| store := _; log := ((log σ ++ [?a]) ++ [?b]) ++ [?c] |} =>
            exists ([a; b; c] ++ set_events (take n kvs))
        end
    end.
    split; [simpl; by rewrite <- !app_assoc |].
    intros t'. rewrite web_identity_tokens_app, web_identity_tokens_set_events.
    by intros ->%list_elem_of_singleton. }
  erewrite new_events_app by exact Hlog. apply Hevs.
Qed.

(** C1, at the failing input: everything answers as it should, the step-2
    body decodes to the token "id-token", and the credential exchange is
    started with an empty web-identity token. *)
Theorem web_identity_token_lost :
  json_Decode Example.healthy (Example.token_body "id-token")
    {| Token := "gitpod-token" |} = ({| Token := "id-token" |}, None)
  ∧ web_identity_tokens
      (new_events Example.initial
         (signinWithGitpodVerbose Example.healthy Example.initial).2) = [""].
Proof. split; reflexivity. Qed.

(** * Further properties *)

(** ** The dispatcher loop *)

(** X1: the loop over a concatenation of two lists of methods is the loop
    over the first list and, when that one was not left through its return,
    the loop over the second list from the state the first one reached. *)
Theorem try_each_app (ms1 ms2 : list SigninMethodFunc) (σ : State) :
  try_each (ms1 ++ ms2) σ
  = let '(returned, σ1) := try_each ms1 σ in
    if returned then (true, σ1) else try_each ms2 σ1.
Proof.
  revert σ. induction ms1 as [|signin ms1 IH]; intros σ; [done |].
  simpl. go_step. destruct (signin σ) as [[[] err] σ1]; [done |].
  destruct err as [e|]; apply IH.
Qed.

(** X2: the loop ends without its return exactly when every method, invoked
    once in list order, reported didSignIn = false; the state is then the
    one [tried] describes. *)
Theorem try_each_exhausted_iff
    (ms : list SigninMethodFunc) (σ σ1 : State) :
  try_each ms σ = (false, σ1) ↔ tried ms σ σ1.
Proof.
  split.
  - revert σ. induction ms as [|signin ms IH]; intros σ.
    + intros [= <-]. constructor.
    + simpl. go_step. destruct (signin σ) as [[[] err] σ'] eqn:Hsignin;
        [done |].
      intros Hrest. econstructor; [exact Hsignin |].
      apply IH. by destruct err.
  - intros H. rewrite <- (app_nil_r ms). by rewrite (try_each_tried ms [] σ σ1 H).
Qed.

(** X3: when the loop is left through its return, the list splits at a
    first successful method: the methods before it were tried without
    success, it reported didSignIn = true, and the loop ended in the state it
    left. *)
Theorem try_each_stops_at_first_success
    (ms : list SigninMethodFunc) (σ σ2 : State) :
  try_each ms σ = (true, σ2) →
  ∃ pre signin post σ1 err,
    ms = pre ++ signin :: post
    ∧ tried pre σ σ1
    ∧ signin σ1 = ((true, err), σ2).
Proof.
  revert σ. induction ms as [|signin ms IH]; intros σ; [done |].
  simpl. go_step. destruct (signin σ) as [[[] err] σ'] eqn:Hsignin.
  - intros [= <-]. exists [], signin, ms, σ, err.
    split; [done |]. split; [constructor | done].
  - intros Hrest.
    destruct (IH (log_error err σ')) as (pre & m & post & σ1 & e & -> & Hpre & Hm).
    { by destruct err. }
    exists (signin :: pre), m, post, σ1, e.
    split; [done |]. split; [| done]. by econstructor.
Qed.

Lemma try_each_stops_at_first_success_witness :
  ∃ pre signin post σ1 err,
    Example.noisy_methods
      ++ [Example.named "third" (true, None);
          Example.named "fourth" (true, None)]
    = pre ++ signin :: post
    ∧ tried pre Example.initial σ1
    ∧ signin σ1
      = ((true, err),
         {| store := ∅;
            log := [EvStderr "first"; EvStderr "second";
                    EvStderr ("error while logging in: no route to host" +:+ nl);
                    EvStderr "third"] |}).
Proof.
  apply (try_each_stops_at_first_success
           (Example.noisy_methods
              ++ [Example.named "third" (true, None);
                  Example.named "fourth" (true, None)])
           Example.initial).
  reflexivity.
Defined.

(** ** Whole runs of [main] *)

Lemma signinWithGitpod_success (w : World) (σ : State) (out : string)
    (s : Store) :
  in_gitpod w →
  Getenv w "IDP_AWS_ROLE_ARN" ≠ "" →
  run_Command w gp_login_argv (store σ) = ((out, None), s) →
  signinWithGitpod w σ
  = ((true, None), {| store := s; log := log σ ++ [EvExec gp_login_argv] |}).
Proof.
  intros Hin Harn Hrun. unfold signinWithGitpod.
  rewrite (runningInGitpod_true w Hin), bool_decide_eq_false_2 by done.
  go_step. fold gp_login_argv. by rewrite Hrun.
Qed.

Lemma signinWithGitpod_failure (w : World) (σ : State) (out : string)
    (e : error) (s : Store) :
  in_gitpod w →
  Getenv w "IDP_AWS_ROLE_ARN" ≠ "" →
  run_Command w gp_login_argv (store σ) = ((out, Some e), s) →
  signinWithGitpod w σ
  = ((false, Some (Errorf_s_w "gp idp login failure: " out ": " e)),
     {| store := s; log := log σ ++ [EvExec gp_login_argv] |}).
Proof.
  intros Hin Harn Hrun. unfold signinWithGitpod.
  rewrite (runningInGitpod_true w Hin), bool_decide_eq_false_2 by done.
  go_step. fold gp_login_argv. by rewrite Hrun.
Qed.

(** X4: when [gp idp login aws] exits zero, all [main] does is that one
    child process: no HTTP call, nothing on standard error, and the verbose
    flow is not entered. *)
Theorem main_gp_login_suffices
    (w : World) (σ : State) (out : string) (s : Store) :
  in_gitpod w →
  Getenv w "IDP_AWS_ROLE_ARN" ≠ "" →
  run_Command w gp_login_argv (store σ) = ((out, None), s) →
  main w σ = (tt, {| store := s; log := log σ ++ [EvExec gp_login_argv] |}).
Proof.
  intros Hin Harn Hrun. unfold main, dispatch. simpl. go_step.
  by rewrite (signinWithGitpod_success w σ out s Hin Harn Hrun).
Qed.

Lemma main_gp_login_suffices_witness :
  main Example.healthy MoreExamples.lived_in
  = (tt, {| store := store MoreExamples.lived_in;
            log := [EvStderr "earlier output"; EvExec gp_login_argv] |}).
Proof.
  apply (main_gp_login_suffices Example.healthy MoreExamples.lived_in
           "gp: logged in").
  - split; vm_compute; discriminate.
  - vm_compute. discriminate.
  - reflexivity.
Defined.

(** X5: outside a Gitpod workspace (marker empty or [gp] not resolvable) a
    run of [main] writes the final failure message and does nothing else. *)
Theorem main_outside_gitpod (w : World) (σ : State) :
  Getenv w "GITPOD_WORKSPACE_URL" = "" ∨ (LookPath w "gp").1 = "" →
  main w σ = (tt, record (EvStderr giveup_message) σ).
Proof.
  intros H. apply runningInGitpod_false in H.
  unfold main, dispatch, signinWithGitpod, signinWithGitpodVerbose.
  simpl. go_step. by rewrite H.
Qed.

Lemma main_outside_gitpod_witness :
  main Example.laptop MoreExamples.lived_in
  = (tt, record (EvStderr giveup_message) MoreExamples.lived_in).
Proof.
  apply (main_outside_gitpod Example.laptop MoreExamples.lived_in).
  left. reflexivity.
Defined.

(** X6: in a workspace without IDP_AWS_ROLE_ARN a run of [main] writes the
    OIDC-setup hint twice, once for each Gitpod method, then the final
    failure message; it starts no child process and makes no HTTP call. *)
Theorem main_missing_role_arn (w : World) (σ : State) :
  in_gitpod w →
  Getenv w "IDP_AWS_ROLE_ARN" = "" →
  main w σ
  = (tt, {| store := store σ;
            log := log σ ++ [EvStderr roleARN_hint; EvStderr roleARN_hint;
                             EvStderr giveup_message] |}).
Proof.
  intros Hin Harn.
  unfold main, dispatch, signinWithGitpod, signinWithGitpodVerbose.
  simpl. rewrite (runningInGitpod_true w Hin), Harn. go_step.
  unfold record. simpl. by rewrite <- !app_assoc.
Qed.

Lemma main_missing_role_arn_witness :
  main MoreExamples.no_role_arn Example.initial
  = (tt, {| store := ∅;
            log := [EvStderr roleARN_hint; EvStderr roleARN_hint;
                    EvStderr giveup_message] |}).
Proof.
  apply (main_missing_role_arn MoreExamples.no_role_arn Example.initial).
  - split; vm_compute; discriminate.
  - reflexivity.
Defined.

(** X7: when [gp idp login aws] fails, [main] writes one line with the
    helper's output and the execution error, and goes on with the verbose
    flow and the SSO placeholder from there. *)
Theorem main_gp_login_fails_falls_through
    (w : World) (σ : State) (out : string) (e : error) (s : Store) :
  in_gitpod w →
  Getenv w "IDP_AWS_ROLE_ARN" ≠ "" →
  run_Command w gp_login_argv (store σ) = ((out, Some e), s) →
  main w σ
  = dispatch [signinWithGitpodVerbose w; signinWithSSO]
      {| store := s;
         log := log σ ++ [EvExec gp_login_argv;
                          EvStderr (gp_failure_line out e)] |}.
Proof.
  intros Hin Harn Hrun. unfold main, dispatch. simpl. go_step.
  rewrite (signinWithGitpod_failure w σ out e s Hin Harn Hrun). simpl.
  assert ("error while logging in: "
          +:+ ("gp idp login failure: " +:+ out +:+ ": " +:+ Error e) +:+ nl
          = gp_failure_line out e) as ->.
  { unfold gp_failure_line. by rewrite !append_assoc. }
  unfold record. simpl. by rewrite <- !app_assoc.
Qed.

Lemma main_gp_login_fails_falls_through_witness :
  main Example.gp_broken Example.initial
  = dispatch [signinWithGitpodVerbose Example.gp_broken; signinWithSSO]
      {| store := ∅;
         log := [EvExec gp_login_argv;
                 EvStderr ("error while logging in: gp idp login failure: "
                           +:+ "gp: exit status 1: exit status 1" +:+ nl)] |}.
Proof.
  apply (main_gp_login_fails_falls_through Example.gp_broken Example.initial
           "gp: exit status 1" (errorString "exit status 1") ∅).
  - split; vm_compute; discriminate.
  - vm_compute. discriminate.
  - reflexivity.
Defined.

(** ** The helper-based method and the shorter variant *)

Lemma new_events_same (σ : State) : new_events σ σ = [].
Proof. unfold new_events. apply drop_all. Qed.

Lemma new_events_record (e : Event) (σ : State) :
  new_events σ (record e σ) = [e].
Proof. by apply new_events_app. Qed.

(** X8: a run of [signinWithGitpod] adds nothing, or the hint, or the one
    invocation of [gp idp login aws]; it never makes an HTTP call.  It
    reports success only behind that invocation and then returns no error,
    and in a run without the invocation it leaves the store alone and
    returns (false, nil). *)
Theorem signinWithGitpod_effects (w : World) (σ : State) :
  let r := signinWithGitpod w σ in
  (new_events σ r.2 = []
   ∨ new_events σ r.2 = [EvStderr roleARN_hint]
   ∨ new_events σ r.2 = [EvExec gp_login_argv])
  ∧ (r.1.1 = true →
     new_events σ r.2 = [EvExec gp_login_argv] ∧ r.1.2 = None)
  ∧ (new_events σ r.2 ≠ [EvExec gp_login_argv] →
     store r.2 = store σ ∧ r.1 = (false, None)).
Proof.
  unfold signinWithGitpod.
  destruct (negb (runningInGitpod w)); simpl.
  { rewrite new_events_same. split; [by left |]. by split. }
  case_bool_decide; simpl.
  { go_step. rewrite new_events_record. split; [by right; left |]. by split. }
  go_step. fold gp_login_argv.
  destruct (run_Command w gp_login_argv (store σ)) as [[out [e|]] s]; simpl.
  all: erewrite new_events_app by reflexivity.
  all: split; [by right; right |]; by split.
Qed.

(** X9: when [gp idp login aws] exits zero or the program is not in a
    Gitpod workspace, the shorter variant of [main] and the one with the
    verbose flow do the same. *)
Theorem short_main_agrees (w : World) (σ : State) :
  (Getenv w "GITPOD_WORKSPACE_URL" = "" ∨ (LookPath w "gp").1 = "")
  ∨ (in_gitpod w ∧ Getenv w "IDP_AWS_ROLE_ARN" ≠ ""
     ∧ (run_Command w gp_login_argv (store σ)).1.2 = None) →
  Short.main w σ = main w σ.
Proof.
  intros [Hout | (Hin & Harn & Hrun)].
  - apply runningInGitpod_false in Hout.
    unfold Short.main, main, dispatch, signinWithGitpod,
      signinWithGitpodVerbose.
    simpl. go_step. by rewrite Hout.
  - destruct (run_Command w gp_login_argv (store σ)) as [[out err] s] eqn:E.
    simpl in Hrun. subst err.
    unfold Short.main, main, dispatch. simpl. go_step.
    by rewrite (signinWithGitpod_success w σ out s Hin Harn E).
Qed.

Lemma short_main_agrees_witness :
  Short.main Example.healthy MoreExamples.lived_in
  = main Example.healthy MoreExamples.lived_in.
Proof.
  apply (short_main_agrees Example.healthy MoreExamples.lived_in).
  right. split; [split; vm_compute; discriminate |].
  split; [vm_compute; discriminate | reflexivity].
Defined.

(** X10: when [gp idp login aws] fails, the shorter variant writes the
    error, with no newline behind it, and the final failure message; it
    makes no HTTP call and starts no other child process. *)
Theorem short_main_gives_up_after_gp_failure
    (w : World) (σ : State) (out : string) (e : error) (s : Store) :
  in_gitpod w →
  Getenv w "IDP_AWS_ROLE_ARN" ≠ "" →
  run_Command w gp_login_argv (store σ) = ((out, Some e), s) →
  Short.main w σ
  = (tt, {| store := s;
            log := log σ ++
              [EvExec gp_login_argv;
               EvStderr ("login using Gitpod IDP failed: gp idp login failure: "
                         +:+ out +:+ ": " +:+ Error e);
               EvStderr giveup_message] |}).
Proof.
  intros Hin Harn Hrun. unfold Short.main. go_step.
  rewrite (signinWithGitpod_failure w σ out e s Hin Harn Hrun). simpl.
  unfold record. simpl. by rewrite <- !app_assoc.
Qed.

Lemma short_main_gives_up_after_gp_failure_witness :
  Short.main Example.gp_broken Example.initial
  = (tt, {| store := ∅;
            log := [EvExec gp_login_argv;
                    EvStderr ("login using Gitpod IDP failed: gp idp login failure: "
                              +:+ "gp: exit status 1" +:+ ": "
                              +:+ "exit status 1");
                    EvStderr giveup_message] |}).
Proof.
  apply (short_main_gives_up_after_gp_failure Example.gp_broken
           Example.initial "gp: exit status 1" (errorString "exit status 1") ∅).
  - split; vm_compute; discriminate.
  - vm_compute. discriminate.
  - reflexivity.
Defined.

(** ** The shape of a run of the verbose flow *)

Lemma verbose_run_trace (w : World) (σ : State) :
  ∃ evs, log (signinWithGitpodVerbose w σ).2 = log σ ++ evs
         ∧ verbose_trace w evs.
Proof.
  unfold signinWithGitpodVerbose. go_step.
  repeat (branch;
          try (exists []; rewrite app_nil_r; split;
               [reflexivity | constructor]));
    simplify_eq/=.
  all: try (eexists; split; [rewrite <- ?app_assoc; reflexivity |];
            simpl;
            first [ constructor
                  | apply (verbose_trace_exec w _ _
                             {| AccessKeyId := ""; SecretAccessKey := "";
                                SessionToken := "" |} 0) ]).
  match goal with
  | |- context [persist_vars ?w ?kvs ?σ3] =>
      destruct (persist_vars_log w kvs σ3) as [n Hn]; rewrite Hn
  end.
  eexists. split; [simpl; rewrite <- !app_assoc; reflexivity |].
  apply (verbose_trace_exec w _ _ _ n).
Qed.

Lemma child_processes_set_events (kvs : list (string * string)) :
  child_processes (set_events kvs)
  = (λ kv, configure_set_argv kv.1 kv.2) <$> kvs.
Proof. induction kvs as [|[k v] kvs IH]; [done |]. simpl. by f_equal. Qed.

Lemma http_calls_set_events (kvs : list (string * string)) :
  http_calls (set_events kvs) = [].
Proof. induction kvs as [|[k v] kvs IH]; [done | exact IH]. Qed.

Lemma stderr_writes_set_events (kvs : list (string * string)) :
  stderr_writes (set_events kvs) = [].
Proof. induction kvs as [|[k v] kvs IH]; [done | exact IH]. Qed.

(** X11: the verbose flow starts no child process other than [aws] (it
    never runs [gp]), and the only thing it ever writes to standard error is
    the OIDC-setup hint. *)
Theorem verbose_runs_only_aws (w : World) (σ : State) :
  let evs := new_events σ (signinWithGitpodVerbose w σ).2 in
  (∀ argv, argv ∈ child_processes evs → argv !! 0 = Some "aws")
  ∧ (∀ s, s ∈ stderr_writes evs → s = roleARN_hint).
Proof.
  destruct (verbose_run_trace w σ) as (evs & Hlog & Htrace). simpl.
  rewrite (new_events_app _ _ _ Hlog).
  destruct Htrace as [| |u|u req|u req c n]; simpl.
  1, 3, 4: split; intros ? []%elem_of_nil.
  - split; [intros ? []%elem_of_nil |]. by intros s ->%list_elem_of_singleton.
  - split.
    + intros argv [->|Hin]%elem_of_cons; [done |].
      rewrite child_processes_set_events in Hin.
      by apply list_elem_of_fmap in Hin as [[k v] [-> _]].
    + rewrite stderr_writes_set_events. intros ? []%elem_of_nil.
Qed.

(** X12: no retry and no reordering.  With [range] visiting every entry of
    the map once, a run of the verbose flow makes at most two HTTP calls and
    starts at most four child processes, and it starts a child process only
    behind both HTTP calls. *)
Theorem verbose_call_bounds (w : World) (σ : State) :
  range_wf w →
  let evs := new_events σ (signinWithGitpodVerbose w σ).2 in
  (length (http_calls evs) ≤ 2)%nat
  ∧ (length (child_processes evs) ≤ 4)%nat
  ∧ (child_processes evs ≠ [] →
     ∃ u req rest, evs = EvGet u :: EvDo req :: rest ∧ http_calls rest = []).
Proof.
  intros Hwf.
  destruct (verbose_run_trace w σ) as (evs & Hlog & Htrace). simpl.
  rewrite (new_events_app _ _ _ Hlog).
  destruct Htrace as [| |u|u req|u req c n]; simpl;
    try (split; [lia |]; split; [lia | done]).
  rewrite http_calls_set_events, child_processes_set_events, length_fmap,
    length_take.
  pose proof (Permutation_length (range_order_entries w c Hwf)) as Hlen.
  simpl in Hlen. split; [simpl; lia |]. split; [lia |].
  intros _. eexists u, req, _. split; [reflexivity |].
  simpl. apply http_calls_set_events.
Qed.

Lemma verbose_call_bounds_witness :
  let evs := new_events Example.initial
               (signinWithGitpodVerbose Example.healthy Example.initial).2 in
  (length (http_calls evs) ≤ 2)%nat
  ∧ (length (child_processes evs) ≤ 4)%nat
  ∧ (child_processes evs ≠ [] →
     ∃ u req rest, evs = EvGet u :: EvDo req :: rest ∧ http_calls rest = []).
Proof.
  apply (verbose_call_bounds Example.healthy Example.initial).
  intros m. reflexivity.
Defined.

(** ** The failures of the verbose flow, step by step *)

(** Open the two gates of the verbose flow. *)
Ltac verbose_open Hin Harn :=
  unfold signinWithGitpodVerbose;
  rewrite (runningInGitpod_true _ Hin), bool_decide_eq_false_2 by exact Harn;
  simpl.

(** X13: when GITPOD_HOST does not parse, the verbose flow returns false
    and an error wrapping the parse error, and has done nothing: no request
    is made to a host that was not understood. *)
Theorem verbose_invalid_host (w : World) (σ : State) (e : error) :
  in_gitpod w →
  Getenv w "IDP_AWS_ROLE_ARN" ≠ "" →
  url_Parse w (Getenv w "GITPOD_HOST") = inr e →
  signinWithGitpodVerbose w σ
  = ((false, Some (wrapError ("invalid Gitpod host url: " +:+ Error e) e)), σ).
Proof. intros Hin Harn Hparse. verbose_open Hin Harn. by rewrite Hparse. Qed.

Lemma verbose_invalid_host_witness :
  signinWithGitpodVerbose MoreExamples.host_unparsable MoreExamples.lived_in
  = ((false,
      Some (wrapError "invalid Gitpod host url: missing protocol scheme"
              (errorString "missing protocol scheme"))),
     MoreExamples.lived_in).
Proof.
  apply (verbose_invalid_host MoreExamples.host_unparsable
           MoreExamples.lived_in (errorString "missing protocol scheme")).
  - split; vm_compute; discriminate.
  - vm_compute. discriminate.
  - reflexivity.
Defined.

(** X14: when step 1 succeeded and the step-2 request cannot be marshalled
    or built, the verbose flow returns false and an error wrapping the
    cause, and the GET is all it did: no POST, no child process. *)
Theorem verbose_request_not_built
    (w : World) (σ : State) (gitpodHost : URL) (tkn1 : TokenJSON) (e : error) :
  step_1_succeeds w gitpodHost tkn1 →
  ((json_Marshal w (Getenv w "GITPOD_WORKSPACE_ID") ["sts.amazonaws.com"]).2
   = Some e
   ∨ ((json_Marshal w (Getenv w "GITPOD_WORKSPACE_ID") ["sts.amazonaws.com"]).2
      = None
      ∧ NewRequest_err w "POST" (idp_url gitpodHost) = Some e)) →
  ∃ err,
    signinWithGitpodVerbose w σ
    = ((false, Some err), record (EvGet (metadata_url w gitpodHost)) σ)
    ∧ Unwrap err = Some e.
Proof.
  intros (Hin & Harn & Hparse & resp1 & Hget & Hdec1) Hfail.
  unfold metadata_url, idp_url in *. verbose_open Hin Harn.
  rewrite Hparse. go_step. rewrite Hget, Hdec1.
  destruct (json_Marshal w (Getenv w "GITPOD_WORKSPACE_ID")
              ["sts.amazonaws.com"]) as [idpReq merr].
  simpl in Hfail. destruct Hfail as [-> | [-> Hnew]]; [by eexists |].
  unfold http_NewRequest. rewrite Hnew. by eexists.
Qed.

Lemma verbose_request_not_built_witness :
  ∃ err,
    signinWithGitpodVerbose MoreExamples.request_rejected Example.initial
    = ((false, Some err),
       {| store := ∅;
          log := [EvGet "http://localhost:22999/_supervisor/v1/token/gitpod/gitpod.io/"] |})
    ∧ Unwrap err = Some (errorString "invalid character in host name").
Proof.
  apply (verbose_request_not_built MoreExamples.request_rejected
           Example.initial Example.gitpod_io {| Token := "gitpod-token" |}
           (errorString "invalid character in host name")).
  - split; [split; vm_compute; discriminate |].
    split; [vm_compute; discriminate |]. split; [reflexivity |].
    exists {| StatusCode := 200; Body := Example.token_body "gitpod-token" |}.
    split; reflexivity.
  - right. split; reflexivity.
Defined.

(** X15: when the POST of step 2 fails in transport or its body does not
    decode, the verbose flow returns false and an error wrapping the cause;
    it made the GET and the POST, started no child process and left the
    store alone. *)
Theorem verbose_identity_exchange_fails
    (w : World) (σ : State) (gitpodHost : URL) (tkn1 : TokenJSON)
    (idpReq : string) (e : error) :
  step_1_succeeds w gitpodHost tkn1 →
  json_Marshal w (Getenv w "GITPOD_WORKSPACE_ID") ["sts.amazonaws.com"]
    = (idpReq, None) →
  NewRequest_err w "POST" (idp_url gitpodHost) = None →
  (http_Do w (idp_request gitpodHost tkn1 idpReq) = inr e
   ∨ ∃ resp2, http_Do w (idp_request gitpodHost tkn1 idpReq) = inl resp2
              ∧ (json_Decode w (Body resp2) tkn1).2 = Some e) →
  ∃ err,
    signinWithGitpodVerbose w σ
    = ((false, Some err),
       {| store := store σ;
          log := log σ ++ [EvGet (metadata_url w gitpodHost);
                           EvDo (idp_request gitpodHost tkn1 idpReq)] |})
    ∧ Unwrap err = Some e.
Proof.
  intros (Hin & Harn & Hparse & resp1 & Hget & Hdec1) Hmarshal Hnew Hfail.
  unfold idp_request, metadata_url, idp_url in *. verbose_open Hin Harn.
  rewrite Hparse. go_step. rewrite Hget, Hdec1, Hmarshal.
  unfold http_NewRequest. rewrite Hnew.
  destruct Hfail as [Hdo | (resp2 & Hdo & Hdec2)]; rewrite Hdo.
  - eexists. split; [unfold record; simpl; by rewrite <- app_assoc | reflexivity].
  - destruct (json_Decode w (Body resp2) tkn1) as [tkn2 err].
    simpl in Hdec2. subst err.
    eexists. split; [unfold record; simpl; by rewrite <- app_assoc | reflexivity].
Qed.

Lemma verbose_identity_exchange_fails_witness :
  ∃ err,
    signinWithGitpodVerbose MoreExamples.idp_unreachable Example.initial
    = ((false, Some err),
       {| store := ∅;
          log := [EvGet (metadata_url MoreExamples.idp_unreachable
                           Example.gitpod_io);
                  EvDo (idp_request Example.gitpod_io
                          {| Token := "gitpod-token" |}
                          (Example.Marshal "acme-app-1a2b3c"
                             ["sts.amazonaws.com"]).1)] |})
    ∧ Unwrap err = Some (errorString "dial tcp: connection refused").
Proof.
  apply (verbose_identity_exchange_fails MoreExamples.idp_unreachable
           Example.initial Example.gitpod_io {| Token := "gitpod-token" |}
           (Example.Marshal "acme-app-1a2b3c" ["sts.amazonaws.com"]).1
           (errorString "dial tcp: connection refused")).
  - split; [split; vm_compute; discriminate |].
    split; [vm_compute; discriminate |]. split; [reflexivity |].
    exists {| StatusCode := 200; Body := Example.token_body "gitpod-token" |}.
    split; reflexivity.
  - reflexivity.
  - reflexivity.
  - left. reflexivity.
Defined.

(** X16: whenever step 1 succeeded and the step-2 request could be built,
    the second thing the verbose flow does is the POST, whatever happens
    behind it; the request goes to the identity-provider URL of the parsed
    host with the marshalled body, and its only headers are Authorization,
    the bearer token decoded in step 1, and Content-Type. *)
Theorem verbose_post_carries_metadata_token
    (w : World) (σ : State) (gitpodHost : URL) (tkn1 : TokenJSON)
    (idpReq : string) :
  step_1_succeeds w gitpodHost tkn1 →
  json_Marshal w (Getenv w "GITPOD_WORKSPACE_ID") ["sts.amazonaws.com"]
    = (idpReq, None) →
  NewRequest_err w "POST" (idp_url gitpodHost) = None →
  ∃ req,
    new_events σ (signinWithGitpodVerbose w σ).2 !! 1 = Some (EvDo req)
    ∧ Method req = "POST"
    ∧ Url req = "https://api." +:+ Host gitpodHost
                +:+ "/gitpod.experimental.v1.IdentityProviderService/GetIDToken"
    ∧ Payload req = idpReq
    ∧ Header req !! "Authorization" = Some ["Bearer " +:+ Token tkn1]
    ∧ Header req !! "Content-Type" = Some ["application/json"]
    ∧ dom (Header req) = {[ "Authorization"; "Content-Type" ]}.
Proof.
  intros (Hin & Harn & Hparse & resp1 & Hget & Hdec1) Hmarshal Hnew.
  exists (idp_request gitpodHost tkn1 idpReq).
  split; [| split; [done |]; split; [done |]; split; [done |]].
  - assert (∃ rest,
      log (signinWithGitpodVerbose w σ).2
      = log σ ++ [EvGet (metadata_url w gitpodHost);
                  EvDo (idp_request gitpodHost tkn1 idpReq)] ++ rest)
      as [rest Hlog].
    { unfold idp_request, metadata_url, idp_url in *. verbose_open Hin Harn.
      rewrite Hparse. go_step. rewrite Hget, Hdec1, Hmarshal.
      unfold http_NewRequest. rewrite Hnew.
      repeat branch; simplify_eq/=.
      all: try (eexists; unfold record; simpl; rewrite <- ?app_assoc; simpl;
                reflexivity).
      match goal with
      | |- context [persist_vars ?w ?kvs ?σ3] =>
          destruct (persist_vars_log w kvs σ3) as [n Hn]; rewrite Hn
      end.
      eexists. simpl. rewrite <- !app_assoc. simpl. reflexivity. }
    by rewrite (new_events_app _ _ _ Hlog).
  - unfold idp_request, Header_Set. simpl. split; [| split].
    + rewrite lookup_insert_ne by done. apply lookup_insert_eq.
    + apply lookup_insert_eq.
    + rewrite !dom_insert_L, dom_empty_L. set_solver.
Qed.

Lemma verbose_post_carries_metadata_token_witness :
  ∃ req,
    new_events Example.initial
      (signinWithGitpodVerbose Example.healthy Example.initial).2 !! 1
    = Some (EvDo req)
    ∧ Method req = "POST"
    ∧ Url req = "https://api." +:+ "gitpod.io"
                +:+ "/gitpod.experimental.v1.IdentityProviderService/GetIDToken"
    ∧ Payload req
      = (Example.Marshal "acme-app-1a2b3c" ["sts.amazonaws.com"]).1
    ∧ Header req !! "Authorization" = Some ["Bearer " +:+ "gitpod-token"]
    ∧ Header req !! "Content-Type" = Some ["application/json"]
    ∧ dom (Header req) = {[ "Authorization"; "Content-Type" ]}.
Proof.
  apply (verbose_post_carries_metadata_token Example.healthy Example.initial
           Example.gitpod_io {| Token := "gitpod-token" |}).
  - split; [split; vm_compute; discriminate |].
    split; [vm_compute; discriminate |]. split; [reflexivity |].
    exists {| StatusCode := 200; Body := Example.token_body "gitpod-token" |}.
    split; reflexivity.
  - reflexivity.
  - reflexivity.
Defined.

Lemma verbose_reaches_step3
    (w : World) (σ : State) (gitpodHost : URL) (tkn1 : TokenJSON)
    (idpReq : string) :
  steps_1_to_2_succeed w gitpodHost tkn1 idpReq →
  signinWithGitpodVerbose w σ
  = let '((out, err), s) := run_Command w (sts_argv w) (store σ) in
    let σ3 := {| store := s;
                 log := log σ ++ [EvGet (metadata_url w gitpodHost);
                                  EvDo (idp_request gitpodHost tkn1 idpReq);
                                  EvExec (sts_argv w)] |} in
    match err with
    | Some e => ((false, Some (Errorf_w_s e ": " out)), σ3)
    | None =>
        let '(c, uerr) := json_Unmarshal w out in
        match uerr with
        | Some e => ((false, Some e), σ3)
        | None => persist_vars w (range_order w (credential_vars c)) σ3
        end
    end.
Proof.
  intros ((Hin & Harn & Hparse & resp1 & Hget & Hdec1) & Hmarshal & Hnew
          & resp2 & tkn2 & Hdo & Hdec2).
  unfold sts_argv, session_name, idp_request, metadata_url, idp_url in *.
  verbose_open Hin Harn.
  rewrite Hparse. go_step. rewrite Hget, Hdec1, Hmarshal.
  unfold http_NewRequest. rewrite Hnew, Hdo, Hdec2. simpl.
  destruct (run_Command w _ (store σ)) as [[out [e|]] s]; simpl.
  - by rewrite <- !app_assoc.
  - destruct (json_Unmarshal w out) as [c [e|]]; by rewrite <- !app_assoc.
Qed.

(** X17: when the credential exchange of step 3 fails, the verbose flow
    returns false and an error that wraps the execution error and carries
    its text and the command's output; no [aws configure set] is started,
    and the store is as the command left it. *)
Theorem verbose_credential_exchange_fails
    (w : World) (σ : State) (gitpodHost : URL) (tkn1 : TokenJSON)
    (idpReq out : string) (e : error) (s : Store) :
  steps_1_to_2_succeed w gitpodHost tkn1 idpReq →
  run_Command w (sts_argv w) (store σ) = ((out, Some e), s) →
  ∃ err,
    signinWithGitpodVerbose w σ
    = ((false, Some err),
       {| store := s;
          log := log σ ++ [EvGet (metadata_url w gitpodHost);
                           EvDo (idp_request gitpodHost tkn1 idpReq);
                           EvExec (sts_argv w)] |})
    ∧ Unwrap err = Some e
    ∧ Error err = Error e +:+ ": " +:+ out.
Proof.
  intros Hsteps Hrun. exists (Errorf_w_s e ": " out).
  rewrite (verbose_reaches_step3 _ _ _ _ _ Hsteps), Hrun. done.
Qed.

(** X18: when the credential exchange exits zero and its output does not
    unmarshal, the verbose flow returns false and the unmarshal error as it
    is, not wrapped; no [aws configure set] is started. *)
Theorem verbose_output_not_json
    (w : World) (σ : State) (gitpodHost : URL) (tkn1 : TokenJSON)
    (idpReq out : string) (e : error) (s : Store) :
  steps_1_to_2_succeed w gitpodHost tkn1 idpReq →
  run_Command w (sts_argv w) (store σ) = ((out, None), s) →
  (json_Unmarshal w out).2 = Some e →
  signinWithGitpodVerbose w σ
  = ((false, Some e),
     {| store := s;
        log := log σ ++ [EvGet (metadata_url w gitpodHost);
                         EvDo (idp_request gitpodHost tkn1 idpReq);
                         EvExec (sts_argv w)] |}).
Proof.
  intros Hsteps Hrun Hunm.
  rewrite (verbose_reaches_step3 _ _ _ _ _ Hsteps), Hrun.
  destruct (json_Unmarshal w out) as [c uerr]. simpl in Hunm. by subst uerr.
Qed.

Lemma example_steps_1_to_2 (reply : string * option error) :
  steps_1_to_2_succeed (MoreExamples.sts_replies reply) Example.gitpod_io
    {| Token := "gitpod-token" |}
    (Example.Marshal "acme-app-1a2b3c" ["sts.amazonaws.com"]).1.
Proof.
  split; [| split; [reflexivity |]; split; [reflexivity |]].
  - split; [split; vm_compute; discriminate |].
    split; [vm_compute; discriminate |]. split; [reflexivity |].
    exists {| StatusCode := 200; Body := Example.token_body "gitpod-token" |}.
    split; reflexivity.
  - exists {| StatusCode := 200; Body := Example.token_body "id-token" |},
      {| Token := "id-token" |}.
    split; reflexivity.
Qed.

Lemma verbose_credential_exchange_fails_witness :
  ∃ err,
    signinWithGitpodVerbose MoreExamples.sts_denied MoreExamples.lived_in
    = ((false, Some err),
       {| store := store MoreExamples.lived_in;
          log := log MoreExamples.lived_in ++
            [EvGet (metadata_url MoreExamples.sts_denied Example.gitpod_io);
             EvDo (idp_request Example.gitpod_io {| Token := "gitpod-token" |}
                     (Example.Marshal "acme-app-1a2b3c"
                        ["sts.amazonaws.com"]).1);
             EvExec (sts_argv MoreExamples.sts_denied)] |})
    ∧ Unwrap err = Some (errorString "exit status 254")
    ∧ Error err
      = "exit status 254" +:+ ": "
        +:+ "An error occurred (InvalidIdentityToken)".
Proof.
  apply (verbose_credential_exchange_fails MoreExamples.sts_denied
           MoreExamples.lived_in Example.gitpod_io
           {| Token := "gitpod-token" |}
           (Example.Marshal "acme-app-1a2b3c" ["sts.amazonaws.com"]).1
           "An error occurred (InvalidIdentityToken)"
           (errorString "exit status 254") (store MoreExamples.lived_in)).
  - apply example_steps_1_to_2.
  - reflexivity.
Defined.

Lemma verbose_output_not_json_witness :
  signinWithGitpodVerbose MoreExamples.sts_garbled MoreExamples.lived_in
  = ((false, Some Example.syntax_error),
     {| store := store MoreExamples.lived_in;
        log := log MoreExamples.lived_in ++
          [EvGet (metadata_url MoreExamples.sts_garbled Example.gitpod_io);
           EvDo (idp_request Example.gitpod_io {| Token := "gitpod-token" |}
                   (Example.Marshal "acme-app-1a2b3c"
                      ["sts.amazonaws.com"]).1);
           EvExec (sts_argv MoreExamples.sts_garbled)] |}).
Proof.
  apply (verbose_output_not_json MoreExamples.sts_garbled
           MoreExamples.lived_in Example.gitpod_io
           {| Token := "gitpod-token" |}
           (Example.Marshal "acme-app-1a2b3c" ["sts.amazonaws.com"]).1
           "Run aws configure first" Example.syntax_error
           (store MoreExamples.lived_in)).
  - apply example_steps_1_to_2.
  - reflexivity.
  - reflexivity.
Defined.

(** ** The profile after a successful run *)

Lemma sets_ok_frame (w : World) (kvs : list (string * string))
    (s s' : Store) (key : string * string) :
  configure_set_writes w → sets_ok w kvs s s' →
  key ∉ (λ kv : string * string, ("default", kv.1)) <$> kvs →
  s' !! key = s !! key.
Proof.
  intros Hw. induction 1 as [|k v kvs s out s1 s2 Hrun _ IH]; [done |].
  rewrite fmap_cons. intros [Hne Hnotin]%not_elem_of_cons.
  rewrite (IH Hnotin), (Hw _ _ _ _ _ _ Hrun).
  apply lookup_insert_ne. intros Heq. apply Hne. by rewrite <- Heq.
Qed.

(** X19: when steps 1 to 3 succeed and every [aws configure set] exits
    zero and writes its key, the verbose flow reports success and the
    profile "default" holds the three credentials the exchange printed,
    whatever the order of the writes; every other entry of the store is as
    it was before step 4. *)
Theorem verbose_success_profile
    (w : World) (σ : State) (out : string) (c : Credentials) (σ3 : State) :
  range_wf w →
  configure_set_writes w →
  steps_1_to_3_succeed w σ out c σ3 →
  (∀ k v s, (run_Command w (configure_set_argv k v) s).1.2 = None) →
  ∃ σ',
    signinWithGitpodVerbose w σ = ((true, None), σ')
    ∧ store σ' !! ("default", "aws_access_key_id") = Some (AccessKeyId c)
    ∧ store σ' !! ("default", "aws_secret_access_key")
      = Some (SecretAccessKey c)
    ∧ store σ' !! ("default", "aws_session_token") = Some (SessionToken c)
    ∧ ∀ key,
        key ∉ [("default", "aws_access_key_id");
               ("default", "aws_secret_access_key");
               ("default", "aws_session_token")] →
        store σ' !! key = store σ3 !! key.
Proof.
  intros Hwf Hw Hsteps Hok.
  destruct (sets_ok_total w Hok (range_order w (credential_vars c)) (store σ3))
    as [s' Hsets].
  eexists. rewrite (verbose_reaches_step4 _ _ _ _ _ Hsteps).
  rewrite (persist_vars_ok _ _ _ _ Hsets). split; [reflexivity |]. simpl.
  pose proof (range_order_NoDup w c Hwf) as Hnd.
  pose proof (range_order_entries w c Hwf) as Hperm.
  assert (∀ k v, (k, v) ∈ credential_entries c →
                 s' !! ("default", k) = Some v) as Hwritten.
  { intros k v Hin. apply (sets_ok_written w _ _ _ k v Hw Hsets Hnd).
    by rewrite Hperm. }
  split; [apply Hwritten; set_solver |].
  split; [apply Hwritten; set_solver |].
  split; [apply Hwritten; set_solver |].
  intros key Hkey. apply (sets_ok_frame w _ _ _ key Hw Hsets).
  rewrite Hperm. exact Hkey.
Qed.

Lemma verbose_success_profile_witness :
  ∃ σ',
    signinWithGitpodVerbose Example.healthy Example.initial
    = ((true, None), σ')
    ∧ store σ' !! ("default", "aws_access_key_id") = Some "ASIAEXAMPLE"
    ∧ store σ' !! ("default", "aws_secret_access_key")
      = Some "wJalrEXAMPLEKEY"
    ∧ store σ' !! ("default", "aws_session_token")
      = Some "FwoGZXIvYXdzEXAMPLE"
    ∧ ∀ key,
        key ∉ [("default", "aws_access_key_id");
               ("default", "aws_secret_access_key");
               ("default", "aws_session_token")] →
        store σ' !! key
        = store (Example.before_step4 Example.healthy "gitpod-token") !! key.
Proof.
  apply (verbose_success_profile Example.healthy Example.initial
           (Example.sts_output Example.issued) Example.issued
           (Example.before_step4 Example.healthy "gitpod-token")).
  - intros m. reflexivity.
  - apply example_run_writes.
  - by eapply example_steps_1_to_3.
  - intros k v s. reflexivity.
Defined.

(** ** The process: call trees, runs and the exit status *)

#[export] Hint Unfold Process.Prog_ret Process.Prog_bind Process.call
  : go_unfold.

Lemma run_bind (w : World) {A B : Type} (p : Process.Prog A)
    (f : A → Process.Prog B) (σ : State) :
  Process.run w (Process.bind p f) σ
  = match Process.run w p σ with
    | (Process.Returned a, σ') => Process.run w (f a) σ'
    | (Process.Exited code, σ') => (Process.Exited code, σ')
    end.
Proof.
  revert σ. induction p as [a|X c k IH|code]; intros σ; simpl; [done | | done].
  destruct (Process.answer w c σ) as [x σ']. apply IH.
Qed.

Lemma never_exits_bind {A B : Type} (p : Process.Prog A)
    (f : A → Process.Prog B) :
  Process.never_exits p → (∀ a, Process.never_exits (f a)) →
  Process.never_exits (Process.bind p f).
Proof.
  intros Hp Hf. induction Hp as [a|X c k _ IH]; simpl; [apply Hf |].
  constructor. exact IH.
Qed.

Lemma never_exits_run (w : World) {A : Type} (p : Process.Prog A) (σ : State) :
  Process.never_exits p → ∃ a σ', Process.run w p σ = (Process.Returned a, σ').
Proof.
  intros Hp. revert σ. induction Hp as [a|X c k _ IH]; intros σ; simpl.
  - by eexists _, _.
  - destruct (Process.answer w c σ) as [x σ']. apply IH.
Qed.

(** Walk through a body: a call, a return, or a case distinction. *)
Ltac walk :=
  repeat first
    [ apply Process.never_exits_Ret
    | apply Process.never_exits_Step; intros
    | match goal with
      | |- Process.never_exits (match ?x with _ => _ end) => destruct x
      end ].

Lemma never_exits_runningInGitpod :
  Process.never_exits Process.runningInGitpod.
Proof. unfold Process.runningInGitpod. simpl. walk. Qed.

Lemma never_exits_signinWithGitpod :
  Process.never_exits Process.signinWithGitpod.
Proof.
  apply never_exits_bind; [apply never_exits_runningInGitpod |].
  intros inGitpod. simpl. walk.
Qed.

Lemma never_exits_persist_vars (kvs : list (string * string)) :
  Process.never_exits (Process.persist_vars kvs).
Proof.
  induction kvs as [|[k v] kvs IH]; simpl; [constructor |].
  constructor. intros [out [e|]]; [constructor | exact IH].
Qed.

Lemma never_exits_signinWithGitpodVerbose :
  Process.never_exits Process.signinWithGitpodVerbose.
Proof.
  apply never_exits_bind; [apply never_exits_runningInGitpod |].
  intros inGitpod. simpl. walk. apply never_exits_persist_vars.
Qed.

Lemma never_exits_try_each
    (ms : list (Process.Prog (bool * option error))) :
  Forall Process.never_exits ms → Process.never_exits (Process.try_each ms).
Proof.
  induction 1 as [|signin ms Hsignin _ IH]; simpl; [constructor |].
  apply never_exits_bind; [exact Hsignin |].
  intros [[] [e|]]; simpl; walk; exact IH.
Qed.

Lemma never_exits_main : Process.never_exits Process.main.
Proof.
  apply never_exits_bind.
  - apply never_exits_try_each.
    constructor; [apply never_exits_signinWithGitpod |].
    constructor; [apply never_exits_signinWithGitpodVerbose |].
    constructor; [apply Process.never_exits_Ret | constructor].
  - intros []; simpl; walk.
Qed.

(** The trees and the functions of the state monad agree. *)
Lemma agrees_runningInGitpod (w : World) :
  agrees w Process.runningInGitpod (mret (runningInGitpod w)).
Proof.
  intros σ. unfold Process.runningInGitpod, runningInGitpod. simpl.
  go_step. case_bool_decide; [done |]. go_step.
  case_bool_decide; done.
Qed.

Lemma agrees_signinWithGitpod (w : World) :
  agrees w Process.signinWithGitpod (signinWithGitpod w).
Proof.
  intros σ. unfold Process.signinWithGitpod, signinWithGitpod.
  change (Process.run w (Process.bind Process.runningInGitpod ?f) σ)
    with (Process.run w (Process.bind Process.runningInGitpod f) σ).
  unfold mbind at 1, Process.Prog_bind.
  rewrite run_bind, (agrees_runningInGitpod w σ). go_step.
  destruct (runningInGitpod w); simpl; [| done].
  case_bool_decide; simpl; [done |]. go_step.
  destruct (run_Command w _ (store σ)) as [[out [e|]] s]; done.
Qed.

Lemma agrees_persist_vars (w : World) (kvs : list (string * string)) :
  agrees w (Process.persist_vars kvs) (persist_vars w kvs).
Proof.
  induction kvs as [|[k v] kvs IH]; intros σ; [done |].
  simpl. go_step.
  destruct (run_Command w _ (store σ)) as [[out [e|]] s]; [done |].
  apply IH.
Qed.

Lemma agrees_signinWithGitpodVerbose (w : World) :
  agrees w Process.signinWithGitpodVerbose (signinWithGitpodVerbose w).
Proof.
  intros σ. unfold Process.signinWithGitpodVerbose, signinWithGitpodVerbose.
  unfold mbind at 1, Process.Prog_bind.
  rewrite run_bind, (agrees_runningInGitpod w σ). go_step.
  destruct (runningInGitpod w); simpl; [| done].
  case_bool_decide; simpl; [done |]. go_step.
  repeat (branch; simplify_eq/=; go_step; try done).
  match goal with
  | H : persist_vars _ _ _ = _ |- _ =>
      by rewrite (agrees_persist_vars w _ _), H
  end.
Qed.

Lemma agrees_try_each (w : World)
    (ps : list (Process.Prog (bool * option error)))
    (ms : list SigninMethodFunc) :
  Forall2 (agrees w) ps ms → agrees w (Process.try_each ps) (try_each ms).
Proof.
  induction 1 as [|p m ps ms Hpm _ IH]; intros σ; [done |].
  simpl. unfold mbind at 1, Process.Prog_bind.
  rewrite run_bind, (Hpm σ). go_step.
  destruct (m σ) as [[[] err] σ']; [done |].
  destruct err as [e|]; simpl; apply IH.
Qed.

Lemma agrees_main (w : World) : agrees w Process.main (main w).
Proof.
  intros σ. unfold Process.main, main, dispatch.
  set (ms := [signinWithGitpod w; signinWithGitpodVerbose w; signinWithSSO]).
  unfold mbind at 1, Process.Prog_bind.
  rewrite run_bind,
    (agrees_try_each w
       [Process.signinWithGitpod; Process.signinWithGitpodVerbose;
        Process.signinWithSSO] ms).
  - unfold mbind, M_bind. destruct (try_each ms σ) as [[] σ']; done.
  - constructor; [apply agrees_signinWithGitpod |].
    constructor; [apply agrees_signinWithGitpodVerbose |].
    constructor; [by intros ? | constructor].
Qed.

(** With [os.Exit(1)] behind the final message the status would be 1 in
    every run: the status is read off the body of [main]. *)
Lemma main_exiting_status (w : World) (σ : State) :
  Process.exit_status (Process.run w Process.main_exiting σ).1 = 1%Z.
Proof.
  unfold Process.main_exiting. unfold mbind, Process.Prog_bind.
  rewrite run_bind, (agrees_main w σ).
  by destruct (main w σ) as [[] σ'].
Qed.

(** C9: no call of [os.Exit] is reachable in [main], whatever its calls
    answer.  When all three methods have been tried without success, [main]
    writes the final failure message last and returns, and the process ends
    with status 0. *)
Theorem exhausted_exit_status_zero (w : World) (σ σ1 : State) :
  tried [signinWithGitpod w; signinWithGitpodVerbose w; signinWithSSO] σ σ1 →
  Process.never_exits Process.main
  ∧ Process.run w Process.main σ
    = (Process.Returned tt, record (EvStderr giveup_message) σ1)
  ∧ run_process w σ = (0%Z, record (EvStderr giveup_message) σ1).
Proof.
  intros H. split; [apply never_exits_main |].
  assert (Process.run w Process.main σ
          = (Process.Returned tt, record (EvStderr giveup_message) σ1)) as Hrun.
  { rewrite (agrees_main w σ). unfold main.
    by rewrite (dispatch_exhausted _ _ _ H). }
  split; [exact Hrun |]. unfold run_process. by rewrite Hrun.
Qed.

Lemma exhausted_exit_status_zero_witness :
  Process.never_exits Process.main
  ∧ Process.run Example.laptop Process.main Example.initial
    = (Process.Returned tt,
       {| store := ∅; log := [EvStderr giveup_message] |})
  ∧ run_process Example.laptop Example.initial
    = (0%Z, {| store := ∅; log := [EvStderr giveup_message] |}).
Proof.
  apply (exhausted_exit_status_zero Example.laptop Example.initial
           Example.initial).
  eapply tried_cons; [reflexivity |].
  eapply tried_cons; [reflexivity |].
  eapply tried_cons; [reflexivity |]. apply tried_nil.
Defined.
